(** * FairyTale: the concurrent two-step conversation orchestration

    A shallow embedding of [fairy_tale/fairy_tale.py]: the [FairyTale]
    client (topics, polling, the per-topic pipeline, the gathered fan-out)
    and the [PDF] document assembler.

    Coroutines ([async def]) are terms of a small free monad [Co] whose
    leaves are the calls to the remote service; the event loop steps the
    tasks one suspension point at a time, in the order given by a
    schedule; the remote service is an arbitrary state machine. *)

From Stdlib Require Import QArith.
From stdpp Require Import base option list strings pretty.

Open Scope string_scope.
Open Scope list_scope.
Open Scope nat_scope.

(** ** Python values and exceptions *)

Inductive exn : Type :=
| OpenAIError (message : string)
| ValueError (message : string)
| IndexError
| AttributeError
| TypeError.

Inductive Result (A : Type) : Type :=
| Ok (a : A)
| Err (e : exn).
Arguments Ok {A} a.
Arguments Err {A} e.

(** ** The objects of the remote service (openai.types.beta) *)

Record Assistant := { assistant_id : string }.
Record Thread := { thread_id : string }.
Record Run := { run_id : string; status : string }.

Inductive Content : Type :=
| MessageContentText (value : string)
| MessageContentImageFile (file_id : string).

Record Message := { role : string; content : list Content }.

(** The operations of [self.beta] used by the program, indexed by the type
    of what they return. *)
Inductive Request : Type → Type :=
| assistants_create (name description model : string) : Request Assistant
| assistants_delete (assistant_id : string) : Request unit
| threads_create : Request Thread
| threads_delete (thread_id : string) : Request unit
| messages_create (thread_id role content : string) : Request Message
| messages_list (thread_id order : string) : Request (list Message)
| runs_create (thread_id assistant_id : string) : Request Run
| runs_retrieve (thread_id run_id : string) : Request Run.

(** One interaction with the service: the request and what came back
    (a value, or the exception raised by the client). *)
Inductive Event : Type :=
| Ev {A : Type} (rq : Request A) (reply : Result A).

(** ** Coroutines *)

Inductive Co : Type → Type :=
| Ret {R} (r : R) : Co R
| Raise {R} (e : exn) : Co R
| Call {A} (rq : Request A) : Co A
| Sleep (seconds : Q) : Co unit
| Bind {A R} (m : Co A) (k : A → Co R) : Co R
| While {S} (cond : S → bool) (body : S → Co S) (s : S) : Co S.

Declare Scope co_scope.
Delimit Scope co_scope with co.
Bind Scope co_scope with Co.
Notation "x ← 'await' m ; k" := (Bind m (λ x, k))
  (at level 20, m at level 100, k at level 200, only parsing) : co_scope.
Notation "'await' m ;; k" := (Bind m (λ _, k))
  (at level 100, m at level 99, k at level 200, right associativity, only parsing) : co_scope.

(** The state of an asyncio task. *)
Inductive Task (R : Type) : Type :=
| Running (c : Co R)
| Returned (r : R)
| Raised (e : exn).
Arguments Running {R} c.
Arguments Returned {R} r.
Arguments Raised {R} e.

Section EventLoop.

(** The remote service: any state machine answering the requests. *)
Context {Remote : Type}.
Variable service : ∀ A, Request A → Remote → Result A * Remote.

(** One step of a coroutine: up to its next suspension point. *)
Fixpoint co_step {R} (c : Co R) (w : Remote) : Task R * Remote * list Event :=
  match c in Co R return Task R * Remote * list Event with
  | Ret r => (Returned r, w, [])
  | Raise e => (Raised e, w, [])
  | Call rq =>
      let '(reply, w') := service _ rq w in
      (match reply with Ok a => Returned a | Err e => Raised e end,
       w', [Ev rq reply])
  | Sleep _ => (Returned (), w, [])
  | Bind m k =>
      let '(t, w', evs) := co_step m w in
      (match t with
       | Running m' => Running (Bind m' k)
       | Returned a => Running (k a)
       | Raised e => Raised e
       end, w', evs)
  | While cond body s =>
      (Running (if cond s
                then Bind (body s) (λ s', While cond body s')
                else Ret s), w, [])
  end.

Definition task_step {R} (t : Task R) (w : Remote) : Task R * Remote * list Event :=
  match t with
  | Running c => co_step c w
  | _ => (t, w, [])
  end.

(** The event loop: the tasks in their slots, the remote service, and
    the interactions so far, each tagged with the slot of its task. *)
Record Loop (R : Type) := {
  tasks : list (Task R);
  remote : Remote;
  history : list (nat * Event);
}.
Arguments tasks {R} _.
Arguments remote {R} _.
Arguments history {R} _.

Definition spawn {R} (cs : list (Co R)) (w : Remote) : Loop R :=
  {| tasks := Running <$> cs; remote := w; history := [] |}.

Definition loop_step {R} (i : nat) (l : Loop R) : Loop R :=
  match tasks l !! i with
  | None => l
  | Some t =>
      let '(t', w', evs) := task_step t (remote l) in
      {| tasks := <[i := t']> (tasks l);
         remote := w';
         history := history l ++ (pair i <$> evs) |}
  end.

Definition raised {R} (t : Task R) : option exn :=
  match t with Raised e => Some e | _ => None end.

Definition returned {R} (t : Task R) : option R :=
  match t with Returned r => Some r | _ => None end.

(** The first exception raised by a task, if any. *)
Definition failure {R} (l : Loop R) : option exn :=
  head (omap raised (tasks l)).

(** The loop runs the tasks in the order of the schedule until one of
    them raises: that exception is what [asyncio.gather] propagates. *)
Fixpoint run_loop {R} (schedule : list nat) (l : Loop R) : Loop R :=
  match schedule with
  | [] => l
  | i :: schedule' =>
      match failure l with
      | Some _ => l
      | None => run_loop schedule' (loop_step i l)
      end
  end.

End EventLoop.

Arguments tasks {Remote R} _.
Arguments remote {Remote R} _.
Arguments history {Remote R} _.

(** What a caller blocked on an awaitable sees once the schedule is
    exhausted. *)
Inductive Outcome (A : Type) : Type :=
| Returns (a : A)
| Raises (e : exn)
| Awaiting.
Arguments Returns {A} a.
Arguments Raises {A} e.
Arguments Awaiting {A}.

(** [asyncio.gather]: the exception of the first task that raised,
    else the results of all the tasks, in the order of the awaitables. *)
Definition gather {Remote R} (l : Loop (Remote := Remote) R) : Outcome (list R) :=
  match failure l with
  | Some e => Raises e
  | None =>
      match mapM returned (tasks l) with
      | Some rs => Returns rs
      | None => Awaiting
      end
  end.

(** [list(map(f, it))] over an iterator [it]: the list, or the exception
    raised by [f] together with what is left of the iterator. *)
Fixpoint list_map {A B} (f : A → Result B) (it : list A) : Result (list B) * list A :=
  match it with
  | [] => (Ok [], [])
  | x :: it' =>
      match f x with
      | Err e => (Err e, it')
      | Ok y =>
          match list_map f it' with
          | (Ok ys, rest) => (Ok (y :: ys), rest)
          | (Err e, rest) => (Err e, rest)
          end
      end
  end.

(** ** class FairyTale(AsyncOpenAI) *)

Module FairyTale.

(** The generator expression returned by [get_fairy_tale]: it has
    captured [messages.data] and yields
    [message.content[0].text.value] for the assistant's messages when
    it is consumed. *)
Inductive generator : Type :=
| assistant_texts (data : list Message).

Definition text_value (message : Message) : Result string :=
  match content message with
  | [] => Err IndexError
  | MessageContentText value :: _ => Ok value
  | MessageContentImageFile _ :: _ => Err AttributeError
  end.

Definition by_assistant (message : Message) : bool :=
  bool_decide (role message = "assistant").

(** [tuple(g)] *)
Definition tuple (g : generator) : Result (list string) :=
  match g with
  | assistant_texts data => (list_map text_value (filter by_assistant data)).1
  end.

(** The values taken by the attribute [self.responses]. *)
Inductive Responses : Type :=
| NoResponses
| gathered (results : list (option generator))
| filter_object (it : list (option generator))
| tuples (l : list (list string)).

Record FairyTale := {
  api_key : string;
  _topics : list string;
  assistant : option Assistant;
  responses : Responses;
}.

Definition topics (self : FairyTale) : list string := _topics self.

(** [any(iterable)] on strings: a string is true when it is not empty. *)
Definition any (iterable : list string) : bool :=
  existsb (λ s, bool_decide (s ≠ "")) iterable.

(** The setter of [topics]; [args] is the tuple of its positional
    arguments, [(value,)] for an assignment [self.topics = value]. *)
Definition topics_setter (self : FairyTale) (args : list (list string)) : Result FairyTale :=
  match args with
  | [] => Err (ValueError "At least one topic is required.")
  | [value] =>
      if negb (any value)
      then Err (ValueError "At least one topic is required.")
      else Ok {| api_key := api_key self; _topics := value;
                 assistant := assistant self; responses := responses self |}
  | _ => Err TypeError
  end.

(** The constructor of the base class needs a key, given or found in
    the environment variable OPENAI_API_KEY. *)
Definition AsyncOpenAI_init (environ key : option string) : Result string :=
  match key, environ with
  | Some key, _ => Ok key
  | None, Some key => Ok key
  | None, None => Err (OpenAIError "The api_key client option must be set")
  end.

Definition __init__ (environ key : option string) (args : list string) : Result FairyTale :=
  match AsyncOpenAI_init environ key with
  | Err e => Err e
  | Ok key =>
      match topics_setter {| api_key := key; _topics := [];
                             assistant := None; responses := NoResponses |} [args] with
      | Err e => Err e
      | Ok self =>
          Ok {| api_key := api_key self; _topics := _topics self;
                assistant := None; responses := NoResponses |}
      end
  end.

(** [self.assistant.id] *)
Definition assistant_dot_id (self : FairyTale) : Co string :=
  match assistant self with
  | Some a => Ret (assistant_id a)
  | None => Raise AttributeError
  end.

Definition create_assistant (self : FairyTale) (name description model : string)
  : Co (FairyTale * Assistant) :=
  (a ← await Call (assistants_create name description model);
   Ret ({| api_key := api_key self; _topics := _topics self;
           assistant := Some a; responses := responses self |}, a))%co.

Definition delete_assistant (self : FairyTale) : Co FairyTale :=
  (id ← await assistant_dot_id self;
   await Call (assistants_delete id);;
   Ret {| api_key := api_key self; _topics := _topics self;
          assistant := None; responses := responses self |})%co.

Definition pending (run : Run) : bool :=
  bool_decide (status run = "queued") || bool_decide (status run = "in_progress").

Definition wait_for_response (self : FairyTale) (thread_id : string) : Co Run :=
  (id ← await assistant_dot_id self;
   run ← await Call (runs_create thread_id id);
   While pending
     (λ run,
        run ← await Call (runs_retrieve thread_id (run_id run));
        await Sleep (1 # 2);;
        Ret run)
     run)%co.

Definition add_message (thread_id message : string) : Co unit :=
  (await Call (messages_create thread_id "user" message);;
   Ret ())%co.

Definition completed (run : Run) : bool :=
  bool_decide (status run = "completed").

Definition get_fairy_tale (self : FairyTale) (first_prompt second_prompt : string)
  : Co (option generator) :=
  (thread ← await Call threads_create;
   await add_message (thread_id thread) first_prompt;;
   run1 ← await wait_for_response self (thread_id thread);
   await add_message (thread_id thread) second_prompt;;
   run2 ← await wait_for_response self (thread_id thread);
   messages ← await Call (messages_list (thread_id thread) "asc");
   await Call (threads_delete (thread_id thread));;
   if completed run1 && completed run2
   then Ret (Some (assistant_texts messages))
   else Ret None)%co.

(** The awaitables handed to [asyncio.gather], one per topic. *)
Definition pipelines (self : FairyTale) (first_prompt second_prompt : string)
  : list (Co (option generator)) :=
  (λ topic, get_fairy_tale self (first_prompt +:+ topic +:+ ".") second_prompt)
    <$> topics self.

Definition set_responses (self : FairyTale) (r : Responses) : FairyTale :=
  {| api_key := api_key self; _topics := _topics self;
     assistant := assistant self; responses := r |}.

Section WithService.
Context {Remote : Type}.
Variable service : ∀ A, Request A → Remote → Result A * Remote.

(** The event loop after the gathered pipelines were run along
    [schedule]. *)
Definition gathering (self : FairyTale) (first_prompt second_prompt : string)
    (schedule : list nat) (w : Remote) : Loop (option generator) :=
  run_loop service schedule (spawn (pipelines self first_prompt second_prompt) w).

Definition write_fairy_tales (self : FairyTale) (first_prompt second_prompt : string)
    (schedule : list nat) (w : Remote)
  : Outcome (list (list string)) * FairyTale :=
  match gather (gathering self first_prompt second_prompt schedule w) with
  | Awaiting => (Awaiting, self)
  | Raises e => (Raises e, self)
  | Returns results =>
      let self := set_responses self (gathered results) in
      let it := filter (λ x, x ≠ None) results in
      let self := set_responses self (filter_object it) in
      match list_map (from_option tuple (Err TypeError)) it with
      | (Err e, rest) => (Raises e, set_responses self (filter_object rest))
      | (Ok l, _) =>
          let self := set_responses self (tuples l) in
          (Returns l, self)
      end
  end.
End WithService.

End FairyTale.

(** ** class PDF(FPDF) *)

(** [os.path.join(a, b)] for a relative [b]. *)
Definition os_path_join (a b : string) : string :=
  match last (String.list_ascii_of_string a) with
  | None => b
  | Some c => if bool_decide (String c "" = "/") then a +:+ b else a +:+ "/" +:+ b
  end.

Module PDF.

(** The values an entry of [responses] may hold. *)
Inductive value : Type :=
| Str (s : string)
| Int (n : Z)
| Bytes (b : list Byte.byte)
| NoneValue.

(** The calls made to the FPDF base class, in order. *)
Inductive Op : Type :=
| set_title (text : string)
| set_author (text : string)
| set_margin (margin : nat)
| add_font (family style fname : string)
| set_section_title_styles (family style : string) (size : nat)
| add_page
| set_font (family style : string) (size : nat)
| write (text : string)
| insert_toc_placeholder
| start_section (name : string).

Record PDF := {
  path : string;
  calls : list Op;
  files : list (string * list Op);
}.

Definition call (self : PDF) (ops : list Op) : PDF :=
  {| path := path self; calls := calls self ++ ops; files := files self |}.

Definition __init__ (fonts_dir output_path : string) (disk : list (string * list Op)) : PDF :=
  {| path := output_path;
     calls := [set_title "Fairy tales"; set_author "ChatGPT"; set_margin 20;
               add_font "Roboto" "" (os_path_join fonts_dir "Roboto-Regular.ttf");
               add_font "Roboto" "B" (os_path_join fonts_dir "Roboto-Bold.ttf");
               set_section_title_styles "Roboto" "B" 20];
     files := disk |}.

Definition title_page (self : PDF) : PDF :=
  call self [add_page; set_font "Roboto" "B" 42;
             write "Fairy tales by ChatGPT

";
             insert_toc_placeholder].

Definition subtitle (self : PDF) (text : string) : PDF :=
  call self [start_section text; write "
"].

Definition content (self : PDF) (text : string) (is_last : bool) : PDF :=
  let self := call self [set_font "Roboto" "" 14; write text; write "
"] in
  if negb is_last then call self [add_page] else self.

(** [self.output(self.path)]: the document is written at its path, in
    place of the file that was there, if any. What FPDF renders from the
    calls is not modelled, and neither is an output that fails. *)
Definition output (self : PDF) : PDF :=
  {| path := path self; calls := calls self;
     files := (path self, calls self)
              :: filter (λ file, file.1 ≠ path self) (files self) |}.

(** The body of the [for] loop of [save_fairy_tales], from index [i] on;
    [n] is [len(responses)]. *)
Fixpoint save_entries (n i : nat) (self : PDF) (entries : list (list value))
  : Result () * PDF :=
  match entries with
  | [] => (Ok (), self)
  | entry :: entries' =>
      match entry with
      | [content_; title] =>
          match content_, title with
          | Str c, Str t =>
              save_entries n (S i)
                (content (subtitle self t) c (bool_decide (i = n - 1)))
                entries'
          | _, _ => (Err (ValueError "Invalid response."), self)
          end
      | [] | [_] => (Err (ValueError "not enough values to unpack"), self)
      | _ => (Err (ValueError "too many values to unpack"), self)
      end
  end.

Definition save_fairy_tales (self : PDF) (responses : list (list value))
  : Result () * PDF :=
  let self := title_page self in
  match save_entries (length responses) 0 self responses with
  | (Ok _, self) => (Ok (), output self)
  | (Err e, self) => (Err e, self)
  end.

(** The tuples of [FairyTale.responses] as Python values. *)
Definition of_responses (l : list (list string)) : list (list value) :=
  map (map Str) l.

End PDF.

(** ** A scripted remote service

    A small deterministic stand-in for the remote service, used to run
    the program on concrete inputs: threads keep their messages, a run
    stays pending for the number of polls its plan says and then settles
    in the planned status, posting the assistant's messages. *)

Module Mock.

Record Plan := {
  polls : nat;
  final : string;
  says : list Message;
}.

Record Job := {
  job_thread : string;
  job_left : nat;
  job_plan : Plan;
}.

Record World := {
  fresh : nat;
  threads : list (string * list Message);
  jobs : list (string * Job);
  deleted : list string;
}.

Definition empty : World :=
  {| fresh := 0; threads := []; jobs := []; deleted := [] |}.

Fixpoint assoc {V} (key : string) (l : list (string * V)) : option V :=
  match l with
  | [] => None
  | (k, v) :: l' => if bool_decide (k = key) then Some v else assoc key l'
  end.

Fixpoint update {V} (key : string) (v : V) (l : list (string * V)) : list (string * V) :=
  match l with
  | [] => [(key, v)]
  | (k, v') :: l' =>
      if bool_decide (k = key) then (k, v) :: l' else (k, v') :: update key v l'
  end.

Definition remove {V} (key : string) (l : list (string * V)) : list (string * V) :=
  filter (λ kv, kv.1 ≠ key) l.

Definition text (role_ value : string) : Message :=
  {| role := role_; content := [MessageContentText value] |}.

Definition no_thread {A} (w : World) : Result A * World :=
  (Err (OpenAIError "No thread found"), w).

Definition no_run {A} (w : World) : Result A * World :=
  (Err (OpenAIError "No run found"), w).

Definition post (thread : string) (ms : list Message) (w : World) : World :=
  {| fresh := fresh w;
     threads := update thread (default [] (assoc thread (threads w)) ++ ms) (threads w);
     jobs := jobs w;
     deleted := deleted w |}.

Definition set_job (id : string) (j : Job) (w : World) : World :=
  {| fresh := fresh w; threads := threads w;
     jobs := update id j (jobs w); deleted := deleted w |}.

Definition bump (w : World) : World :=
  {| fresh := S (fresh w); threads := threads w; jobs := jobs w; deleted := deleted w |}.

(** A run that has no polls left settles: its status becomes the
    planned one and the assistant's messages appear in the thread. *)
Definition settle (id : string) (j : Job) (w : World) : Result Run * World :=
  (Ok {| run_id := id; status := final (job_plan j) |},
   post (job_thread j) (says (job_plan j))
     (set_job id {| job_thread := job_thread j; job_left := 0; job_plan := job_plan j |} w)).

Section Scripted.

(** What the assistant does with a thread, and which requests fail. *)
Variable brain : list Message → Plan.
Variable broken : ∀ A, Request A → World → bool.

Definition answer A (rq : Request A) (w : World) : Result A * World :=
  match rq in Request A return Result A * World with
  | assistants_create _ _ _ =>
      (Ok {| assistant_id := "asst_" +:+ pretty (fresh w) |}, bump w)
  | assistants_delete _ => (Ok (), w)
  | threads_create =>
      let id := "thread_" +:+ pretty (fresh w) in
      (Ok {| thread_id := id |}, post id [] (bump w))
  | threads_delete id =>
      match assoc id (threads w) with
      | None => no_thread w
      | Some _ =>
          (Ok (), {| fresh := fresh w; threads := remove id (threads w);
                     jobs := jobs w; deleted := deleted w ++ [id] |})
      end
  | messages_create id role_ value =>
      match assoc id (threads w) with
      | None => no_thread w
      | Some _ => (Ok (text role_ value), post id [text role_ value] w)
      end
  | messages_list id order =>
      match assoc id (threads w) with
      | None => no_thread w
      | Some ms => (Ok (if bool_decide (order = "asc") then ms else reverse ms), w)
      end
  | runs_create id _ =>
      match assoc id (threads w) with
      | None => no_thread w
      | Some ms =>
          let run := "run_" +:+ pretty (fresh w) in
          let j := {| job_thread := id; job_left := polls (brain ms); job_plan := brain ms |} in
          match polls (brain ms) with
          | 0 => settle run j (bump w)
          | S _ => (Ok {| run_id := run; status := "queued" |}, set_job run j (bump w))
          end
      end
  | runs_retrieve id run =>
      match assoc id (threads w), assoc run (jobs w) with
      | Some _, Some j =>
          match job_left j with
          | 0 => (Ok {| run_id := run; status := final (job_plan j) |}, w)
          | 1 => settle run j w
          | S n =>
              (Ok {| run_id := run; status := "in_progress" |},
               set_job run {| job_thread := job_thread j; job_left := n;
                              job_plan := job_plan j |} w)
          end
      | None, _ => no_thread w
      | _, None => no_run w
      end
  end.

Definition service A (rq : Request A) (w : World) : Result A * World :=
  if broken A rq w
  then (Err (OpenAIError "Connection error."), w)
  else answer A rq w.

End Scripted.

Definition never_broken A (rq : Request A) (w : World) : bool := false.

(** The request that posts [value] fails. *)
Definition broken_post (value : string) A (rq : Request A) (w : World) : bool :=
  match rq with
  | messages_create _ _ v => bool_decide (v = value)
  | _ => false
  end.

Definition last_text (ms : list Message) : string :=
  match last ms with
  | Some {| content := MessageContentText v :: _ |} => v
  | _ => ""
  end.

(** An assistant that writes a tale in two polls and a title in one,
    except that its run on the topic "dragon" ends in [failed]. *)
Definition teller (ms : list Message) : Plan :=
  if bool_decide (last_text ms = "Tell: dragon.")
  then {| polls := 1; final := "failed"; says := [] |}
  else if bool_decide (last_text ms = "Title?")
  then {| polls := 1; final := "completed"; says := [text "assistant" "A title"] |}
  else {| polls := 2; final := "completed";
          says := [text "assistant" ("Once upon a time. " +:+ last_text ms)] |}.

(** An assistant that answers the first prompt with two messages. *)
Definition chatty (ms : list Message) : Plan :=
  if bool_decide (last_text ms = "Title?")
  then {| polls := 0; final := "completed"; says := [text "assistant" "A title"] |}
  else {| polls := 1; final := "completed";
          says := [text "assistant" "Sure!"; text "assistant" "Once upon a time."] |}.

Definition client (ts : list string) : FairyTale.FairyTale :=
  {| FairyTale.api_key := "sk-test"; FairyTale._topics := ts;
     FairyTale.assistant := Some {| assistant_id := "asst_test" |};
     FairyTale.responses := FairyTale.NoResponses |}.

(** Round-robin over [n] tasks, [k] rounds. *)
Definition round_robin (n k : nat) : list nat :=
  mjoin (replicate k (seq 0 n)).

(** Scenarios. *)
Definition calm : ∀ A, Request A → World → Result A * World :=
  service teller never_broken.

Definition flaky : ∀ A, Request A → World → Result A * World :=
  service teller (broken_post "Tell: owl.").

Definition three : FairyTale.FairyTale := client ["cat"; "dragon"; "owl"].

(** The third pipeline runs to its end before the first one starts. *)
Definition owl_first : list nat :=
  replicate 30 2 ++ replicate 30 0 ++ replicate 30 1.

Definition two_tales : list (list string) :=
  [["Once upon a time. Tell: cat."; "A title"];
   ["Once upon a time. Tell: owl."; "A title"]].

(** A service in which a thread holds the first prompt. *)
Definition asked : World :=
  post "thread_0" [text "user" "Tell: cat."] (bump empty).

End Mock.

Import FairyTale.

(** ** Vocabulary of the specification *)

(** The interactions of the task in slot [i]. *)
Definition events_of (i : nat) (h : list (nat * Event)) : list Event :=
  snd <$> filter (λ e, e.1 = i) h.

(** A request that posts a message to a thread. *)
Definition is_post (ev : Event) : bool :=
  match ev with
  | Ev (messages_create _ _ _) _ => true
  | Ev _ _ => false
  end.

(** A request that deletes the thread [id], answered without error. *)
Definition deletes (id : string) (ev : Event) : bool :=
  match ev with
  | Ev (threads_delete id') (Ok _) => bool_decide (id' = id)
  | Ev _ _ => false
  end.

(** The interactions of a [wait_for_response] that created the run [run]
    and then polled it, getting [rs] in turn. *)
Fixpoint poll_events (thread : string) (run : Run) (rs : list Run) : list Event :=
  match rs with
  | [] => []
  | r :: rs' => Ev (runs_retrieve thread (run_id run)) (Ok r) :: poll_events thread r rs'
  end.

Definition wait_events (thread assistant : string) (run : Run) (rs : list Run) : list Event :=
  Ev (runs_create thread assistant) (Ok run) :: poll_events thread run rs.

(** The run a sequence of polls ends with. *)
Definition final_run (run : Run) (rs : list Run) : Run := default run (last rs).

(** Every run seen before the last one was still pending. *)
Fixpoint polled_while_pending (run : Run) (rs : list Run) : Prop :=
  match rs with
  | [] => True
  | r :: rs' => pending run = true ∧ polled_while_pending r rs'
  end.

(** A pipeline that ran to its end, as the service saw it. *)
Record Conversation := {
  thread : Thread;
  posted1 : Message;
  created1 : Run;
  polled1 : list Run;
  posted2 : Message;
  created2 : Run;
  polled2 : list Run;
  listing : list Message;
}.

Definition run1 (c : Conversation) : Run := final_run (created1 c) (polled1 c).
Definition run2 (c : Conversation) : Run := final_run (created2 c) (polled2 c).

(** Up to the moment the first run is seen settled. *)
Definition first_exchange (assistant first_prompt : string) (th : Thread) (m : Message)
    (run : Run) (rs : list Run) : list Event :=
  [Ev threads_create (Ok th);
   Ev (messages_create (thread_id th) "user" first_prompt) (Ok m)]
  ++ wait_events (thread_id th) assistant run rs.

Definition transcript (assistant first_prompt second_prompt : string) (c : Conversation)
  : list Event :=
  first_exchange assistant first_prompt (thread c) (posted1 c) (created1 c) (polled1 c)
  ++ [Ev (messages_create (thread_id (thread c)) "user" second_prompt) (Ok (posted2 c))]
  ++ wait_events (thread_id (thread c)) assistant (created2 c) (polled2 c)
  ++ [Ev (messages_list (thread_id (thread c)) "asc") (Ok (listing c));
      Ev (threads_delete (thread_id (thread c))) (Ok ())].

Section Semantics.
Context {Remote : Type}.
Variable service : ∀ A, Request A → Remote → Result A * Remote.

(** [reaches t0 tr t]: the task [t0] can become [t] after the
    interactions [tr], whatever else happens to the service between its
    steps. *)
Inductive reaches {R} (t0 : Task R) : list Event → Task R → Prop :=
| reaches_start : reaches t0 [] t0
| reaches_step tr t w t' w' evs :
    reaches t0 tr t →
    task_step service t w = (t', w', evs) →
    reaches t0 (tr ++ evs) t'.

(** A task run alone for [n] steps. *)
Fixpoint run_task {R} (n : nat) (t : Task R) (w : Remote) : Task R * Remote * list Event :=
  match n with
  | 0 => (t, w, [])
  | S n' =>
      let '(t', w', evs) := task_step service t w in
      let '(t'', w'', evs') := run_task n' t' w' in
      (t'', w'', evs ++ evs')
  end.

(** What the service answers to [n] polls in a row, each made with the
    id of the run returned by the previous one. *)
Fixpoint polls (n : nat) (thread : string) (run : Run) (w : Remote)
  : option (list Run * Remote) :=
  match n with
  | 0 => Some ([], w)
  | S n' =>
      match service _ (runs_retrieve thread (run_id run)) w with
      | (Ok run', w') =>
          match polls n' thread run' w' with
          | Some (rs, w'') => Some (run' :: rs, w'')
          | None => None
          end
      | (Err _, _) => None
      end
  end.

End Semantics.

(** No interaction of [tr] posts a message. *)
Definition quiet (tr : list Event) : Prop :=
  Forall (λ ev, is_post ev = false) tr.

(** A coroutine none of whose requests posts a message. *)
Inductive never_posts : ∀ {R}, Co R → Prop :=
| never_posts_ret {R} (r : R) : never_posts (Ret r)
| never_posts_raise {R} (e : exn) : never_posts (@Raise R e)
| never_posts_call {A} (rq : Request A) :
    (∀ reply, is_post (Ev rq reply) = false) → never_posts (Call rq)
| never_posts_sleep seconds : never_posts (Sleep seconds)
| never_posts_bind {A R} (m : Co A) (k : A → Co R) :
    never_posts m → (∀ a, never_posts (k a)) → never_posts (Bind m k)
| never_posts_while {S} (cond : S → bool) (body : S → Co S) (s : S) :
    (∀ s', never_posts (body s')) → never_posts (While cond body s).

(** ** More vocabulary: which requests a coroutine makes *)

(** An interaction on the thread [id]. *)
Definition on_thread (id : string) (ev : Event) : Prop :=
  match ev with
  | Ev (threads_delete id') _ => id' = id
  | Ev (messages_create id' _ _) _ => id' = id
  | Ev (messages_list id' _) _ => id' = id
  | Ev (runs_create id' _) _ => id' = id
  | Ev (runs_retrieve id' _) _ => id' = id
  | Ev _ _ => False
  end.

(** An interaction that creates or polls a run. *)
Definition about_run (ev : Event) : Prop :=
  match ev with
  | Ev (runs_create _ _) _ => True
  | Ev (runs_retrieve _ _) _ => True
  | Ev _ _ => False
  end.

(** A coroutine all of whose requests, whatever they are answered,
    are [allowed]. *)
Inductive only_calls (allowed : Event → Prop) : ∀ {R}, Co R → Prop :=
| only_calls_ret {R} (r : R) : only_calls allowed (Ret r)
| only_calls_raise {R} (e : exn) : only_calls allowed (@Raise R e)
| only_calls_call {A} (rq : Request A) :
    (∀ reply, allowed (Ev rq reply)) → only_calls allowed (Call rq)
| only_calls_sleep seconds : only_calls allowed (Sleep seconds)
| only_calls_bind {A R} (m : Co A) (k : A → Co R) :
    only_calls allowed m → (∀ a, only_calls allowed (k a)) →
    only_calls allowed (Bind m k)
| only_calls_while {S} (cond : S → bool) (body : S → Co S) (s : S) :
    (∀ s', only_calls allowed (body s')) → only_calls allowed (While cond body s).

(** ** The documents of [PDF] *)

(** The titles of the sections started, in order. *)
Definition section_titles (calls : list PDF.Op) : list string :=
  omap (λ op, match op with PDF.start_section t => Some t | _ => None end) calls.

(** The texts written with the body font selected just before. *)
Fixpoint body_texts (calls : list PDF.Op) : list string :=
  match calls with
  | PDF.set_font "Roboto" "" 14 :: PDF.write text :: calls' => text :: body_texts calls'
  | _ :: calls' => body_texts calls'
  | [] => []
  end.

(** The calls that open a page: [add_page], and
    [insert_toc_placeholder], which in fpdf2 ends the page of the
    placeholder (its argument [pages] is left at 1 by [title_page]). The
    pages that FPDF opens by itself, when a text runs over the page, are
    not calls and are not counted. *)
Definition starts_page (op : PDF.Op) : bool :=
  match op with
  | PDF.add_page | PDF.insert_toc_placeholder => true
  | _ => false
  end.

Fixpoint pages_added (calls : list PDF.Op) : nat :=
  match calls with
  | op :: calls' =>
      if starts_page op then S (pages_added calls') else pages_added calls'
  | [] => 0
  end.

(** Nothing was written on the last page. *)
Definition ends_with_empty_page (calls : list PDF.Op) : bool :=
  match last calls with
  | Some op => starts_page op
  | None => false
  end.

(** An entry that unpacks into two strings. *)
Definition text_pair (entry : list PDF.value) : Prop :=
  ∃ c t, entry = [PDF.Str c; PDF.Str t].

(** ** The main coroutine: [run] *)

Section Interleaved.
Context {Remote : Type}.
Variable service : ∀ A, Request A → Remote → Result A * Remote.

(** The main coroutine awaits [main]; the loop steps it when the
    schedule says [None], and otherwise the task in the slot named, until
    [main] is over. Its interactions are tagged with [slot]. *)
Fixpoint await_with {R T} (slot : nat) (schedule : list (option nat)) (main : Task R)
    (l : Loop (Remote := Remote) T) : Task R * Loop (Remote := Remote) T :=
  match main, schedule with
  | Running _, None :: schedule' =>
      let '(t, w', evs) := task_step service main (remote l) in
      await_with slot schedule' t
        {| tasks := tasks l; remote := w'; history := history l ++ (pair slot <$> evs) |}
  | Running _, Some i :: schedule' =>
      await_with slot schedule' main (loop_step service i l)
  | _, _ => (main, l)
  end.

End Interleaved.

Module Main.

(** [str.split(", ")] *)
Fixpoint split_from (s word : string) : list string :=
  match s with
  | EmptyString => [word]
  | String c s' =>
      match s' with
      | String c' s'' =>
          if bool_decide (String c (String c' "") = ", ")
          then word :: split_from s'' ""
          else split_from s' (word +:+ String c "")
      | EmptyString => split_from s' (word +:+ String c "")
      end
  end.

Definition split (s : string) : list string := split_from s "".

(** The namespace returned by [parser.parse_args()]. *)
Record Namespace := {
  topics : option (list string);
  key : option string;
}.

(** [not os.environ.get("OPENAI_API_KEY")] *)
Definition key_required (environ : option string) : bool :=
  match environ with
  | Some value => bool_decide (value = "")
  | None => true
  end.

Definition name : string := "Fairy tale teller".
Definition model : string := "gpt-3.5-turbo-1106".
Definition description : string :=
  "You are a writer of fairy tales for children. "
  +:+ "You can write a short fairy tale on any topic given by the user. "
  +:+ "When asked about a fairy tale, you always respond with only the content of the fairy tale. "
  +:+ "When asked about the title, you always respond with only the title of the fairy tale you wrote. "
  +:+ "Do not use quotation marks for the title.".
Definition first_prompt : string := "Write a fairy tale on the topic: ".
Definition second_prompt : string :=
  "Give me the title of this fairy tale. Do not use quotation marks.".
Definition output_file_name : string := "Fairy tales.pdf".

(** How [run] ends: it returns, an exception leaves it, the argument
    parser exits, or it is still waiting when the schedule is over. *)
Inductive Exit : Type :=
| Finished
| Uncaught (e : exn)
| SystemExit (code : nat)
| Blocked.

Record Ending {Remote : Type} := {
  exit : Exit;
  stdout : list string;
  loop : Loop (Remote := Remote) (option generator);
  files : list (string * list PDF.Op);
}.
Arguments Ending Remote : clear implicits.

(** The [while] loop on [args.topics]: [stdin] is the line [input]
    reads, [None] at the end of the input. The result is [None] when
    [input] raises [EOFError]. *)
Definition read_topics (args : Namespace) (stdin : option string)
  : option (list string) * list string :=
  match topics args with
  | Some ts => (Some ts, [])
  | None =>
      match stdin with
      | Some line => (Some (split line), ["Enter topics separated by commas: "])
      | None => (None, ["Enter topics separated by commas: "])
      end
  end.

(** [except OpenAIError as e: print(e); return], for an exception
    raised in the [try] block. *)
Definition handler (e : exn) (out : list string) : Exit * list string :=
  match e with
  | OpenAIError message => (Finished, out ++ [message])
  | _ => (Uncaught e, out)
  end.

(** [fairy_tale.responses], as the argument of [save_fairy_tales]. *)
Definition responses_value (fairy_tale : FairyTale) : Result (list (list PDF.value)) :=
  match responses fairy_tale with
  | tuples l => Ok (PDF.of_responses l)
  | _ => Err TypeError
  end.

Section WithService.
Context {Remote : Type}.
Variable service : ∀ A, Request A → Remote → Result A * Remote.

(** The [finally] clause: [pending] is how the function would end
    without it. *)
Definition finally (fairy_tale : FairyTale) (pending : Exit) (shutdown : list (option nat))
    (out : list string) (l : Loop (option generator))
    (disk : list (string * list PDF.Op)) : Ending Remote :=
  match assistant fairy_tale with
  | None => {| exit := pending; stdout := out; loop := l; files := disk |}
  | Some _ =>
      let out := out ++ ["Stopping ChatGPT Assistant..."] in
      let '(t, l) := await_with service (length (FairyTale.topics fairy_tale)) shutdown
                       (Running (delete_assistant fairy_tale)) l in
      match t with
      | Returned _ => {| exit := pending; stdout := out; loop := l; files := disk |}
      | Raised (OpenAIError message) =>
          {| exit := Finished; stdout := out ++ [message]; loop := l; files := disk |}
      | Raised e => {| exit := Uncaught e; stdout := out; loop := l; files := disk |}
      | Running _ => {| exit := Blocked; stdout := out; loop := l; files := disk |}
      end
  end.

(** [run]. The process gets its environment variable, its parsed
    arguments, its standard input and its directories; the event loop
    runs the main coroutine alone for [boot] steps while it creates the
    assistant, the pipelines along [schedule], and the main coroutine and
    the pipelines left along [shutdown] while it deletes the assistant. *)
Definition run (environ : option string) (args : Namespace) (stdin : option string)
    (current_dir cwd : string) (disk : list (string * list PDF.Op))
    (boot : nat) (schedule : list nat) (shutdown : list (option nat)) (w : Remote)
  : Ending Remote :=
  let idle := {| tasks := []; remote := w; history := [] |} in
  if key_required environ && bool_decide (key args = None)
  then {| exit := SystemExit 2; stdout := []; loop := idle; files := disk |}
  else
    let output_path := os_path_join cwd output_file_name in
    match read_topics args stdin with
    | (None, out) =>
        {| exit := Finished; stdout := out ++ ["
Exiting..."]; loop := idle; files := disk |}
    | (Some ts, out) =>
        match FairyTale.__init__ environ (key args) ts with
        | Err e => {| exit := Uncaught e; stdout := out; loop := idle; files := disk |}
        | Ok fairy_tale =>
            let slot := length (FairyTale.topics fairy_tale) in
            let out := out ++ ["Starting ChatGPT Assistant..."] in
            let '(t, w, evs) :=
              run_task service boot
                (Running (create_assistant fairy_tale name description model)) w in
            let started := {| tasks := []; remote := w; history := pair slot <$> evs |} in
            match t with
            | Running _ =>
                {| exit := Blocked; stdout := out; loop := started; files := disk |}
            | Raised e =>
                let '(pending, out) := handler e out in
                finally fairy_tale pending shutdown out started disk
            | Returned (fairy_tale, _) =>
                let out := out ++ ["Generating text..."] in
                let l := gathering service fairy_tale first_prompt second_prompt schedule w in
                let l := {| tasks := tasks l; remote := remote l;
                            history := history started ++ history l |} in
                match write_fairy_tales service fairy_tale first_prompt second_prompt
                        schedule w with
                | (Awaiting, _) =>
                    {| exit := Blocked; stdout := out; loop := l; files := disk |}
                | (Raises e, fairy_tale) =>
                    let '(pending, out) := handler e out in
                    finally fairy_tale pending shutdown out l disk
                | (Returns _, fairy_tale) =>
                    let out := out ++ ["Saving PDF..."] in
                    let pdf := PDF.__init__ current_dir output_path disk in
                    match responses_value fairy_tale with
                    | Err e =>
                        let '(pending, out) := handler e out in
                        finally fairy_tale pending shutdown out l disk
                    | Ok values =>
                        match PDF.save_fairy_tales pdf values with
                        | (Ok _, pdf) =>
                            finally fairy_tale Finished shutdown out l (PDF.files pdf)
                        | (Err e, pdf) =>
                            let '(pending, out) := handler e out in
                            finally fairy_tale pending shutdown out l (PDF.files pdf)
                        end
                    end
                end
            end
        end
    end.

End WithService.

End Main.

(** ** Vocabulary for the line of topics *)

(** The words put in a line, with a comma and a space between them. *)
Fixpoint join (words : list string) : string :=
  match words with
  | [] => ""
  | [word] => word
  | word :: words' => word +:+ ", " +:+ join words'
  end.

(** A string in which a comma is followed by a space. *)
Fixpoint has_separator (s : string) : bool :=
  match s with
  | String c s' =>
      match s' with
      | String c' _ => bool_decide (String c (String c' "") = ", ") || has_separator s'
      | EmptyString => false
      end
  | EmptyString => false
  end.

(** ** More scenarios *)

Module Demo.

(** A client whose assistant was not created. *)
Definition unready (ts : list string) : FairyTale :=
  {| api_key := "sk-test"; _topics := ts; assistant := None; responses := NoResponses |}.

(** The request that deletes the assistant fails. *)
Definition broken_delete A (rq : Request A) (w : Mock.World) : bool :=
  match rq with
  | assistants_delete _ => true
  | _ => false
  end.

Definition stuck : ∀ A, Request A → Mock.World → Result A * Mock.World :=
  Mock.service Mock.chatty broken_delete.

Definition talkative : ∀ A, Request A → Mock.World → Result A * Mock.World :=
  Mock.service Mock.chatty Mock.never_broken.

(** A service that tells tales but fails to post the prompt about
    owls; the prompts are those of [run]. *)
Definition tells (ms : list Message) : Mock.Plan :=
  if bool_decide (Mock.last_text ms = Main.second_prompt)
  then {| Mock.polls := 1; Mock.final := "completed";
          Mock.says := [Mock.text "assistant" "A title"] |}
  else {| Mock.polls := 2; Mock.final := "completed";
          Mock.says := [Mock.text "assistant" "Once upon a time."] |}.

Definition fine : ∀ A, Request A → Mock.World → Result A * Mock.World :=
  Mock.service tells Mock.never_broken.

Definition owl_fails : ∀ A, Request A → Mock.World → Result A * Mock.World :=
  Mock.service tells (Mock.broken_post (Main.first_prompt +:+ "owl" +:+ ".")).

Definition argv (ts : list string) : Main.Namespace :=
  {| Main.topics := Some ts; Main.key := Some "sk-test" |}.

(** The first assistant the service creates, the client that holds it,
    and the service after the creation. *)
Definition asst : Assistant := {| assistant_id := "asst_0" |}.

Definition ready (ts : list string) : FairyTale :=
  {| api_key := "sk-test"; _topics := ts; assistant := Some asst;
     responses := NoResponses |}.

Definition created : Mock.World := Mock.bump Mock.empty.

(** An assistant whose answers have no content block. *)
Definition blank (ms : list Message) : Mock.Plan :=
  {| Mock.polls := 1; Mock.final := "completed";
     Mock.says := [{| role := "assistant"; content := [] |}] |}.

Definition speechless : ∀ A, Request A → Mock.World → Result A * Mock.World :=
  Mock.service blank Mock.never_broken.

(** Files that were there: an older document, and notes. *)
Definition shelf : list (string * list PDF.Op) :=
  [("/home/u/Fairy tales.pdf", [PDF.add_page]); ("/home/u/notes.txt", [])].

(** The main coroutine deletes the assistant while the first pipeline
    goes on. *)
Definition shutdown : list (option nat) :=
  [Some 0; None; Some 0; None; None; Some 0].

End Demo.

(** * Proofs *)

(** ** Traces of coroutines *)

Section Traces.
Context {Remote : Type}.
Variable service : ∀ A, Request A → Remote → Result A * Remote.

#[local] Abbreviation reaches := (reaches service).

Lemma reaches_trans {R} (t0 t1 t2 : Task R) tr1 tr2 :
  reaches t0 tr1 t1 → reaches t1 tr2 t2 → reaches t0 (tr1 ++ tr2) t2.
Proof.
  intros H1 H2. induction H2 as [|tr t w t' w' evs _ IH Hstep].
  - by rewrite app_nil_r.
  - rewrite app_assoc. by eapply reaches_step.
Qed.

Lemma reaches_one {R} (t t' : Task R) w w' evs :
  task_step service t w = (t', w', evs) → reaches t evs t'.
Proof.
  intros Hstep. change evs with ([] ++ evs).
  eapply reaches_step; [apply reaches_start | exact Hstep].
Qed.

(** A finished task stays as it is. *)
Lemma reaches_returned {R} (r : R) tr t :
  reaches (Returned r) tr t → tr = [] ∧ t = Returned r.
Proof.
  induction 1 as [|tr t w t' w' evs _ [-> ->] Hstep]; [done|].
  simpl in Hstep. by simplify_eq.
Qed.

Lemma reaches_raised {R} (e : exn) tr (t : Task R) :
  reaches (Raised e) tr t → tr = [] ∧ t = Raised e.
Proof.
  induction 1 as [|tr t w t' w' evs _ [-> ->] Hstep]; [done|].
  simpl in Hstep. by simplify_eq.
Qed.

Lemma reaches_ret {R} (r : R) tr t :
  reaches (Running (Ret r)) tr t →
  tr = [] ∧ (t = Running (Ret r) ∨ t = Returned r).
Proof.
  induction 1 as [|tr t w t' w' evs _ [-> [->| ->]] Hstep]; [by auto|..];
    simpl in Hstep; simplify_eq; auto.
Qed.

Lemma reaches_raise {R} (e : exn) tr (t : Task R) :
  reaches (Running (Raise e)) tr t →
  tr = [] ∧ (t = Running (Raise e) ∨ t = Raised e).
Proof.
  induction 1 as [|tr t w t' w' evs _ [-> [->| ->]] Hstep]; [by auto|..];
    simpl in Hstep; simplify_eq; auto.
Qed.

Lemma reaches_sleep seconds tr t :
  reaches (Running (Sleep seconds)) tr t →
  tr = [] ∧ (t = Running (Sleep seconds) ∨ t = Returned ()).
Proof.
  induction 1 as [|tr t w t' w' evs _ [-> [->| ->]] Hstep]; [by auto|..];
    simpl in Hstep; simplify_eq; auto.
Qed.

(** A call is answered once, by a value or by an exception. *)
Lemma reaches_call {A} (rq : Request A) tr t :
  reaches (Running (Call rq)) tr t →
  (tr = [] ∧ t = Running (Call rq))
  ∨ (∃ a, tr = [Ev rq (Ok a)] ∧ t = Returned a)
  ∨ (∃ e, tr = [Ev rq (Err e)] ∧ t = Raised e).
Proof.
  induction 1 as [|tr t w t' w' evs _ IH Hstep]; [by auto|].
  destruct IH as [[-> ->]|[(a & -> & ->)|(e & -> & ->)]]; simpl in Hstep.
  - destruct (service A rq w) as [[a|e] w1]; simplify_eq; simpl; eauto.
  - simplify_eq. rewrite app_nil_r. eauto.
  - simplify_eq. rewrite app_nil_r. eauto.
Qed.

(** The interactions of [Bind m k] are those of [m], followed, once
    [m] has returned, by those of the continuation. *)
Lemma reaches_bind {A R} (m : Co A) (k : A → Co R) tr t :
  reaches (Running (Bind m k)) tr t →
  (∃ m', reaches (Running m) tr (Running m') ∧ t = Running (Bind m' k))
  ∨ (∃ e, reaches (Running m) tr (Raised e) ∧ t = Raised e)
  ∨ (∃ a tr1 tr2, reaches (Running m) tr1 (Returned a)
                  ∧ reaches (Running (k a)) tr2 t ∧ tr = tr1 ++ tr2).
Proof.
  induction 1 as [|tr t w t' w' evs _ IH Hstep].
  { left. exists m. split; [apply reaches_start | done]. }
  destruct IH as [(m' & Hm & ->)|[(e & Hm & ->)|(a & tr1 & tr2 & Hm & Hk & ->)]].
  - simpl in Hstep.
    destruct (co_step service m' w) as [[t1 w1] evs1] eqn:Hm'.
    assert (reaches (Running m) (tr ++ evs1) t1) as Hm1
      by (eapply reaches_step; [exact Hm | exact Hm']).
    destruct t1 as [m''|a|e]; simplify_eq.
    + left. eauto.
    + right; right. exists a, (tr ++ evs), [].
      split; [done|]. split; [apply reaches_start | by rewrite app_nil_r].
    + right; left. eauto.
  - simpl in Hstep. simplify_eq. rewrite app_nil_r. right; left. eauto.
  - right; right. exists a, tr1, (tr2 ++ evs).
    split; [done|]. split; [by eapply reaches_step | by rewrite app_assoc].
Qed.

(** A bound coroutine that returned: its first part returned, then
    its continuation did. *)
Lemma reaches_bind_returned {A R} (m : Co A) (k : A → Co R) tr r :
  reaches (Running (Bind m k)) tr (Returned r) →
  ∃ a tr1 tr2, reaches (Running m) tr1 (Returned a)
               ∧ reaches (Running (k a)) tr2 (Returned r) ∧ tr = tr1 ++ tr2.
Proof.
  intros H. apply reaches_bind in H as [(? & _ & ?)|[(? & _ & ?)|H]]; done.
Qed.

(** The loop rule: [I] holds of the interactions so far and of the
    loop variable each time the condition is evaluated. *)
Lemma reaches_while {S} (cond : S → bool) (body : S → Co S) (s0 : S)
    (I : list Event → S → Prop) tr t :
  I [] s0 →
  (∀ tr s tr' s', I tr s → cond s = true →
     reaches (Running (body s)) tr' (Returned s') → I (tr ++ tr') s') →
  reaches (Running (While cond body s0)) tr t →
  ∃ tr0 s tr1, tr = tr0 ++ tr1 ∧ I tr0 s ∧
    ((tr1 = [] ∧ t = Running (While cond body s))
     ∨ (cond s = true ∧ ∃ m', reaches (Running (body s)) tr1 (Running m')
          ∧ t = Running (Bind m' (λ s', While cond body s')))
     ∨ (cond s = true ∧ ∃ e, reaches (Running (body s)) tr1 (Raised e) ∧ t = Raised e)
     ∨ (cond s = false ∧ tr1 = [] ∧ (t = Running (Ret s) ∨ t = Returned s))).
Proof.
  intros Hinit Hbody. induction 1 as [|tr t w t' w' evs _ IH Hstep].
  { exists [], s0, []. auto. }
  destruct IH as (tr0 & s & tr1 & -> & HI & Hcase).
  destruct Hcase as [[-> ->]|[(Hc & m' & Hm & ->)|[(Hc & e & Hm & ->)|(Hc & -> & Ht)]]].
  - simpl in Hstep. simplify_eq. exists tr0, s, []. split; [by rewrite !app_nil_r|].
    split; [done|]. destruct (cond s) eqn:Hc.
    + right; left. split; [done|]. exists (body s). split; [apply reaches_start | done].
    + right; right; right. auto.
  - simpl in Hstep.
    destruct (co_step service m' w) as [[t1 w1] evs1] eqn:Hm'.
    assert (reaches (Running (body s)) (tr1 ++ evs1) t1) as Hm1
      by (eapply reaches_step; [exact Hm | exact Hm']).
    destruct t1 as [m''|s'|e]; simplify_eq.
    + exists tr0, s, (tr1 ++ evs). split; [by rewrite app_assoc|]. split; [done|].
      right; left. eauto.
    + exists (tr0 ++ tr1 ++ evs), s', []. split; [by rewrite app_nil_r, app_assoc|].
      split; [by eapply Hbody|]. auto.
    + exists tr0, s, (tr1 ++ evs). split; [by rewrite app_assoc|]. split; [done|].
      right; right; left. eauto.
  - simpl in Hstep. simplify_eq. exists tr0, s, tr1.
    split; [by rewrite app_nil_r|]. split; [done|]. right; right; left. eauto.
  - exists tr0, s, []. destruct Ht as [->| ->]; simpl in Hstep; simplify_eq;
      (split; [by rewrite !app_nil_r|]); (split; [done|]); right; right; right; auto.
Qed.

End Traces.

(** ** Sequences of polls *)

Lemma final_run_cons run r rs : final_run run (r :: rs) = final_run r rs.
Proof.
  unfold final_run. destruct rs as [|r' rs]; [done|].
  rewrite last_cons_cons. by destruct (last (r' :: rs)) eqn:E; [|by apply last_None in E].
Qed.

Lemma poll_events_snoc thread run rs r :
  poll_events thread run (rs ++ [r])
  = poll_events thread run rs ++ [Ev (runs_retrieve thread (run_id (final_run run rs))) (Ok r)].
Proof.
  revert run. induction rs as [|r' rs IH]; intros run; [done|].
  simpl. by rewrite IH, final_run_cons.
Qed.

Lemma final_run_snoc run rs r : final_run run (rs ++ [r]) = r.
Proof. unfold final_run. by rewrite last_snoc. Qed.

Lemma polled_while_pending_snoc run rs r :
  polled_while_pending run rs → pending (final_run run rs) = true →
  polled_while_pending run (rs ++ [r]).
Proof.
  revert run. induction rs as [|r' rs IH]; intros run; simpl.
  - auto.
  - intros [Hp Hrs] Hlast. split; [done|]. apply IH; [done|].
    by rewrite final_run_cons in Hlast.
Qed.

(** ** The traces of the coroutines of [FairyTale] *)

Section Pipeline.
Context {Remote : Type}.
Variable service : ∀ A, Request A → Remote → Result A * Remote.

#[local] Abbreviation reaches := (reaches service).

Lemma assistant_dot_id_returned self tr id :
  reaches (Running (assistant_dot_id self)) tr (Returned id) →
  tr = [] ∧ ∃ a, assistant self = Some a ∧ id = assistant_id a.
Proof.
  unfold assistant_dot_id. destruct (assistant self) as [a|]; intros H.
  - apply reaches_ret in H as [-> [?|?]]; simplify_eq. eauto.
  - apply reaches_raise in H as [-> [?|?]]; simplify_eq.
Qed.

Lemma call_returned {A} (rq : Request A) tr a :
  reaches (Running (Call rq)) tr (Returned a) → tr = [Ev rq (Ok a)].
Proof.
  intros H. apply reaches_call in H as [[_ ?]|[(a' & -> & ?)|(e & _ & ?)]];
    by simplify_eq.
Qed.

Lemma ret_returned {R} (r r' : R) tr :
  reaches (Running (Ret r)) tr (Returned r') → tr = [] ∧ r' = r.
Proof. intros H. apply reaches_ret in H as [-> [?|?]]; by simplify_eq. Qed.

Lemma sleep_returned seconds tr u :
  reaches (Running (Sleep seconds)) tr (Returned u) → tr = [].
Proof. intros H. by apply reaches_sleep in H as [-> _]. Qed.

Lemma add_message_returned thread message tr u :
  reaches (Running (add_message thread message)) tr (Returned u) →
  ∃ m, tr = [Ev (messages_create thread "user" message) (Ok m)].
Proof.
  unfold add_message. intros H.
  apply reaches_bind_returned in H as (m & tr1 & tr2 & H1 & H2 & ->).
  apply call_returned in H1 as ->. apply ret_returned in H2 as [-> _]. eauto.
Qed.

(** A [wait_for_response] that returned has created a run and polled
    it while it was pending; the run it returns is the last one seen,
    and it is not pending. *)
Lemma wait_for_response_returned self thread tr run :
  reaches (Running (wait_for_response self thread)) tr (Returned run) →
  ∃ a r0 rs, assistant self = Some a
    ∧ tr = wait_events thread (assistant_id a) r0 rs
    ∧ run = final_run r0 rs
    ∧ pending run = false
    ∧ polled_while_pending r0 rs.
Proof.
  unfold wait_for_response. intros H.
  apply reaches_bind_returned in H as (id & tr1 & tr2 & H1 & H2 & ->).
  apply assistant_dot_id_returned in H1 as (-> & a & Ha & ->).
  apply reaches_bind_returned in H2 as (r0 & tr1 & tr3 & H1 & H2 & ->).
  apply call_returned in H1 as ->.
  eapply (reaches_while _ _ _ _
            (λ tr s, ∃ rs, tr = poll_events thread r0 rs ∧ s = final_run r0 rs
                           ∧ polled_while_pending r0 rs)) in H2.
  - destruct H2 as (tr0 & s & tr1 & -> & (rs & -> & -> & Hrs) & Hcase).
    destruct Hcase as [[_ ?]|[(_ & ? & _ & ?)|[(_ & ? & _ & ?)|(Hc & -> & Ht)]]];
      try done.
    destruct Ht as [?|?]; simplify_eq.
    exists a, r0, rs. by rewrite app_nil_r.
  - by exists [].
  - intros tr s tr' s' (rs & -> & -> & Hrs) Hc Hbody.
    apply reaches_bind_returned in Hbody as (r & tr1 & tr2 & H1 & H3 & ->).
    apply call_returned in H1 as ->.
    apply reaches_bind_returned in H3 as (u & tr1 & tr4 & H1 & H3 & ->).
    apply sleep_returned in H1 as ->. apply ret_returned in H3 as [-> ->].
    exists (rs ++ [r]). rewrite poll_events_snoc, final_run_snoc.
    split; [done|]. split; [done|]. by apply polled_while_pending_snoc.
Qed.

(** A pipeline that returned went through the whole conversation, and
    returns the generator exactly when both runs were seen completed. *)
Lemma get_fairy_tale_returned self first_prompt second_prompt tr r :
  reaches (Running (get_fairy_tale self first_prompt second_prompt)) tr (Returned r) →
  ∃ a c, assistant self = Some a
    ∧ tr = transcript (assistant_id a) first_prompt second_prompt c
    ∧ pending (run1 c) = false ∧ pending (run2 c) = false
    ∧ polled_while_pending (created1 c) (polled1 c)
    ∧ polled_while_pending (created2 c) (polled2 c)
    ∧ r = if completed (run1 c) && completed (run2 c)
          then Some (assistant_texts (listing c)) else None.
Proof.
  unfold get_fairy_tale. intros H.
  apply reaches_bind_returned in H as (th & tr1 & tr2 & H1 & H & ->).
  apply call_returned in H1 as ->.
  apply reaches_bind_returned in H as (u1 & tr1 & tr3 & H1 & H & ->).
  apply add_message_returned in H1 as (m1 & ->).
  apply reaches_bind_returned in H as (r1 & tr1 & tr4 & H1 & H & ->).
  apply wait_for_response_returned in H1
    as (a & c1 & rs1 & Ha & -> & -> & Hp1 & Hrs1).
  apply reaches_bind_returned in H as (u2 & tr1 & tr5 & H1 & H & ->).
  apply add_message_returned in H1 as (m2 & ->).
  apply reaches_bind_returned in H as (r2 & tr1 & tr6 & H1 & H & ->).
  apply wait_for_response_returned in H1
    as (a' & c2 & rs2 & Ha' & -> & -> & Hp2 & Hrs2).
  apply reaches_bind_returned in H as (ms & tr1 & tr7 & H1 & H & ->).
  apply call_returned in H1 as ->.
  apply reaches_bind_returned in H as (u3 & tr1 & tr8 & H1 & H & ->).
  apply call_returned in H1 as ->. destruct u3.
  assert (a' = a) as -> by congruence.
  exists a, {| thread := th; posted1 := m1; created1 := c1; polled1 := rs1;
               posted2 := m2; created2 := c2; polled2 := rs2; listing := ms |}.
  split; [done|]. unfold run1, run2; simpl.
  assert (tr8 = [] ∧ r = if completed (final_run c1 rs1) && completed (final_run c2 rs2)
                         then Some (assistant_texts ms) else None) as [-> ->].
  { destruct (completed (final_run c1 rs1) && completed (final_run c2 rs2));
      by apply ret_returned in H. }
  split; [|done]. unfold transcript, first_exchange; simpl.
  by rewrite <- ?app_assoc.
Qed.

End Pipeline.

(** ** The event loop *)

Lemma events_of_app i h1 h2 :
  events_of i (h1 ++ h2) = events_of i h1 ++ events_of i h2.
Proof. unfold events_of. by rewrite filter_app, fmap_app. Qed.

Lemma events_of_same i evs : events_of i (pair i <$> evs) = evs.
Proof.
  unfold events_of. induction evs as [|ev evs IH]; [done|].
  rewrite fmap_cons, filter_cons_True by done. rewrite fmap_cons. by f_equal.
Qed.

Lemma events_of_other i j evs : i ≠ j → events_of i (pair j <$> evs) = [].
Proof.
  intros Hij. unfold events_of. induction evs as [|ev evs IH]; [done|].
  rewrite fmap_cons, filter_cons_False; [done|]. simpl. congruence.
Qed.

Section Loops.
Context {Remote : Type}.
Variable service : ∀ A, Request A → Remote → Result A * Remote.

#[local] Abbreviation reaches := (reaches service).

Lemma loop_step_length {R} j (l : Loop R) :
  length (tasks (loop_step service j l)) = length (tasks l).
Proof.
  unfold loop_step. destruct (tasks l !! j) as [t|]; [|done].
  destruct (task_step service t (remote l)) as [[t' w'] evs]. simpl.
  apply length_insert.
Qed.

Lemma run_loop_length {R} schedule (l : Loop R) :
  length (tasks (run_loop service schedule l)) = length (tasks l).
Proof.
  revert l. induction schedule as [|j schedule IH]; intros l; simpl; [done|].
  destruct (failure l); [done|]. by rewrite IH, loop_step_length.
Qed.

(** A step of the loop moves one task and leaves the others and their
    interactions as they were. *)
Lemma loop_step_reaches {R} j (l : Loop R) i t0 :
  tasks l !! i = Some t0 →
  ∃ t tr, tasks (loop_step service j l) !! i = Some t
    ∧ events_of i (history (loop_step service j l)) = events_of i (history l) ++ tr
    ∧ reaches t0 tr t.
Proof.
  intros Hi. unfold loop_step.
  destruct (tasks l !! j) as [tj|] eqn:Hj.
  - destruct (task_step service tj (remote l)) as [[t' w'] evs] eqn:Hstep. simpl.
    destruct (decide (i = j)) as [->|Hij].
    + exists t', evs. rewrite list_lookup_insert_eq by by eapply lookup_lt_Some.
      rewrite events_of_app, events_of_same. simplify_eq.
      split; [done|]. split; [done|]. by eapply reaches_one.
    + exists t0, []. rewrite list_lookup_insert_ne by done.
      rewrite events_of_app, events_of_other by done.
      split; [done|]. split; [done|]. apply reaches_start.
  - exists t0, []. rewrite app_nil_r. split; [done|]. split; [done|]. apply reaches_start.
Qed.

(** However the tasks are interleaved, the task in a slot and the
    interactions tagged with that slot are a run of that task. *)
Lemma run_loop_reaches {R} schedule (l : Loop R) i t0 :
  tasks l !! i = Some t0 →
  ∃ t tr, tasks (run_loop service schedule l) !! i = Some t
    ∧ events_of i (history (run_loop service schedule l)) = events_of i (history l) ++ tr
    ∧ reaches t0 tr t.
Proof.
  revert l t0. induction schedule as [|j schedule IH]; intros l t0 Hi; simpl.
  { exists t0, []. rewrite app_nil_r. split; [done|]. split; [done|]. apply reaches_start. }
  destruct (failure l).
  { exists t0, []. rewrite app_nil_r. split; [done|]. split; [done|]. apply reaches_start. }
  destruct (loop_step_reaches j l i t0 Hi) as (t1 & tr1 & Ht1 & Hev1 & Hr1).
  destruct (IH _ _ Ht1) as (t2 & tr2 & Ht2 & Hev2 & Hr2).
  exists t2, (tr1 ++ tr2). split; [done|].
  split; [by rewrite Hev2, Hev1, app_assoc|]. by eapply reaches_trans.
Qed.

(** No task has raised. *)
Lemma failure_None {R} (l : Loop (Remote := Remote) R) :
  failure l = None ↔ Forall (λ t, raised t = None) (tasks l).
Proof.
  unfold failure. induction (tasks l) as [|t ts IH]; csimpl.
  - split; [constructor | done].
  - destruct (raised t) as [e|] eqn:Ht; simpl.
    + split; [done|]. intros H. apply Forall_cons in H as [? _]. congruence.
    + rewrite IH. split; [by constructor | by intros [_ ?]%Forall_cons].
Qed.

Lemma failure_insert {R} (ts : list (Task R)) j e :
  j < length ts → Forall (λ t, raised t = None) ts →
  head (omap raised (<[j := Raised e]> ts)) = Some e.
Proof.
  intros Hj Hts. revert j Hj.
  induction Hts as [|t ts Ht _ IH]; intros j Hj; simpl in Hj; [lia|].
  destruct j as [|j]; csimpl; [done|].
  rewrite Ht. apply IH. lia.
Qed.

(** The first task that raises is the only one that has. *)
Lemma loop_step_failure {R} j (l : Loop R) i e :
  failure l = None →
  tasks (loop_step service j l) !! i = Some (Raised e) →
  failure (loop_step service j l) = Some e.
Proof.
  intros Hnone%failure_None. unfold loop_step, failure.
  destruct (tasks l !! j) as [tj|] eqn:Hj.
  - destruct (task_step service tj (remote l)) as [[t' w'] evs]. simpl.
    destruct (decide (i = j)) as [->|Hij].
    + rewrite list_lookup_insert_eq by by eapply lookup_lt_Some.
      intros ?; simplify_eq. apply failure_insert; [by eapply lookup_lt_Some | done].
    + rewrite list_lookup_insert_ne by done. intros Hi.
      by eapply Forall_lookup in Hnone; [|exact Hi].
  - intros Hi. by eapply Forall_lookup in Hnone; [|exact Hi].
Qed.

Lemma run_loop_failed {R} schedule (l : Loop R) e :
  failure l = Some e → run_loop service schedule l = l.
Proof. intros He. destruct schedule; simpl; [done|]. by rewrite He. Qed.

(** If a task has raised, its exception is the failure of the loop. *)
Lemma run_loop_failure {R} schedule (l : Loop R) i e :
  failure l = None →
  tasks (run_loop service schedule l) !! i = Some (Raised e) →
  failure (run_loop service schedule l) = Some e.
Proof.
  revert l. induction schedule as [|j schedule IH]; intros l Hnone; simpl.
  - intros Hi. apply failure_None in Hnone.
    by eapply Forall_lookup in Hnone; [|exact Hi].
  - rewrite Hnone. destruct (failure (loop_step service j l)) as [e'|] eqn:E.
    + rewrite (run_loop_failed _ _ _ E). by apply loop_step_failure.
    + by apply IH.
Qed.

Lemma gathering_raised self first_prompt second_prompt schedule w i e :
  tasks (gathering service self first_prompt second_prompt schedule w) !! i
    = Some (Raised e) →
  gather (gathering service self first_prompt second_prompt schedule w) = Raises e.
Proof.
  intros Hi. unfold gather. unfold gathering in *.
  erewrite run_loop_failure; [done| |exact Hi].
  apply failure_None. unfold spawn, pipelines; simpl.
  apply Forall_fmap, Forall_true. done.
Qed.

(** The slot of a topic holds a run of the pipeline of that topic. *)
Lemma gathering_reaches self first_prompt second_prompt schedule w i topic :
  topics self !! i = Some topic →
  ∃ t, tasks (gathering service self first_prompt second_prompt schedule w) !! i = Some t
    ∧ reaches
        (Running (get_fairy_tale self (first_prompt +:+ topic +:+ ".") second_prompt))
        (events_of i (history (gathering service self first_prompt second_prompt schedule w)))
        t.
Proof.
  intros Hi. unfold gathering.
  edestruct (run_loop_reaches schedule
    (spawn (pipelines self first_prompt second_prompt) w) i) as (t & tr & Ht & Hev & Hr).
  { unfold spawn, pipelines; simpl. rewrite !list_lookup_fmap, Hi. done. }
  exists t. split; [done|]. by rewrite Hev.
Qed.

Lemma gathering_length self first_prompt second_prompt schedule w :
  length (tasks (gathering service self first_prompt second_prompt schedule w))
  = length (topics self).
Proof.
  unfold gathering. rewrite run_loop_length. unfold spawn, pipelines; simpl.
  by rewrite !length_fmap.
Qed.

End Loops.

(** ** Consuming iterators *)

Lemma list_map_ok {A B} (f : A → Result B) (it : list A) l :
  (list_map f it).1 = Ok l ↔ Forall2 (λ x y, f x = Ok y) it l.
Proof.
  split.
  - revert l. induction it as [|x it IH]; intros l; simpl.
    + intros ?; simplify_eq. constructor.
    + destruct (f x) as [y|e] eqn:Hx; [|done].
      destruct (list_map f it) as [[ys|e] rest]; simpl in *; [|done].
      intros ?; simplify_eq. constructor; [done|]. by apply IH.
  - induction 1 as [|x y it l Hx _ IH]; simpl; [done|].
    rewrite Hx. destruct (list_map f it) as [[ys|e] rest]; simpl in *; by simplify_eq.
Qed.

Lemma list_map_err {A B} (f : A → Result B) (it : list A) e :
  (list_map f it).1 = Err e → ∃ x, x ∈ it ∧ f x = Err e.
Proof.
  induction it as [|x it IH]; simpl; [done|].
  destruct (f x) as [y|e'] eqn:Hx; simpl.
  - destruct (list_map f it) as [[ys|e'] rest]; simpl in *; [done|].
    intros ?; simplify_eq. destruct IH as (x' & Hin & Hx'); [done|].
    exists x'. split; [by right | done].
  - intros ?; simplify_eq. exists x. split; [by left | done].
Qed.

(** [tuple(g)] lists the first text block of each message of the
    assistant, in the order of the captured list. *)
Lemma tuple_ok data r :
  tuple (assistant_texts data) = Ok r ↔
  Forall2 (λ m v, text_value m = Ok v) (filter by_assistant data) r.
Proof. unfold tuple. apply list_map_ok. Qed.

(** When [tuple(g)] raises, a message of the assistant has no first
    text block. *)
Lemma tuple_err data e :
  tuple (assistant_texts data) = Err e →
  ∃ m, m ∈ data ∧ role m = "assistant"
    ∧ match content m with
      | [] => e = IndexError
      | MessageContentText _ :: _ => False
      | MessageContentImageFile _ :: _ => e = AttributeError
      end.
Proof.
  unfold tuple. intros (m & Hm & He)%list_map_err.
  apply list_elem_of_filter in Hm as [Hrole Hm]. unfold by_assistant in Hrole.
  apply bool_decide_unpack in Hrole.
  exists m. do 2 (split; [done|]). unfold text_value in He.
  destruct (content m) as [|[v|f] blocks]; by simplify_eq.
Qed.

(** ** Tasks that have all returned *)

Lemma all_returned {R} (ts : list (Task R)) :
  Forall (λ t, is_Some (returned t)) ts → ∃ results, ts = Returned <$> results.
Proof.
  induction 1 as [|t ts [r Ht] _ [results ->]]; [by exists []|].
  destruct t; simplify_eq/=. by exists (r :: results).
Qed.

Lemma none_raised {R} (results : list R) :
  omap raised (Returned <$> results) = [].
Proof. induction results as [|r results IH]; [done|]. by csimpl. Qed.

Lemma gather_all_returned {Remote R} (l : Loop (Remote := Remote) R) results :
  tasks l = Returned <$> results → gather l = Returns results.
Proof.
  intros Hts. unfold gather, failure. rewrite Hts, none_raised. simpl.
  replace (mapM returned (Returned <$> results)) with (Some results); [done|].
  symmetry. apply mapM_Some. clear Hts.
  induction results as [|r results IH]; csimpl; by constructor.
Qed.

Lemma kept_generators (results : list (option generator)) :
  filter (λ x, x ≠ None) results = Some <$> omap id results.
Proof.
  induction results as [|[g|] results IH]; [done|..].
  - rewrite filter_cons_True by done. simpl. by rewrite IH.
  - rewrite filter_cons_False by naive_solver. done.
Qed.

Lemma no_generator_kept n :
  filter (λ x : option generator, x ≠ None) (replicate n None) = [].
Proof.
  induction n as [|n IH]; [done|]. simpl.
  rewrite filter_cons_False; [exact IH | naive_solver].
Qed.

Lemma list_map_fmap {A B C} (f : B → Result C) (g : A → B) (it : list A) :
  (list_map f (g <$> it)).1 = (list_map (f ∘ g) it).1.
Proof.
  induction it as [|x it IH]; [done|]. csimpl.
  destruct (f (g x)); [|done].
  destruct (list_map f (g <$> it)) as [[?|?] ?], (list_map (f ∘ g) it) as [[?|?] ?];
    simpl in *; by simplify_eq.
Qed.

(** ** Fan-in: what [write_fairy_tales] returns *)

Lemma gather_returns {Remote R} (l : Loop (Remote := Remote) R) results :
  gather l = Returns results →
  failure l = None ∧ Forall2 (λ t r, returned t = Some r) (tasks l) results.
Proof.
  unfold gather. destruct (failure l); [done|].
  destruct (mapM returned (tasks l)) as [rs|] eqn:E; [|done].
  intros ?; simplify_eq. split; [done|]. by apply mapM_Some.
Qed.

(** The tuples kept by the filter come from increasing slots. *)
Lemma kept_slots (ts : list (Task (option generator))) results rs k :
  Forall2 (λ t r, returned t = Some r) ts results →
  (list_map (from_option tuple (Err TypeError)) (filter (λ x, x ≠ None) results)).1 = Ok rs →
  ∃ idxs, idxs `sublist_of` seq k (length ts) ∧
    Forall2 (λ i r, k ≤ i ∧ ∃ g, ts !! (i - k) = Some (Returned (Some g)) ∧ tuple g = Ok r)
      idxs rs.
Proof.
  intros Hts. revert rs k.
  induction Hts as [|t o ts results Ht _ IH]; intros rs k Hrs.
  { simpl in Hrs. simplify_eq. exists []. split; [done|]. constructor. }
  destruct t as [|o'|]; simplify_eq/=.
  destruct o as [g|].
  - rewrite filter_cons_True in Hrs by done. simpl in Hrs.
    destruct (tuple g) as [r|] eqn:Hg; [|done].
    destruct (list_map _ (filter _ results)) as [[rs'|] rest] eqn:Hrest; simplify_eq/=.
    destruct (IH rs' (S k) eq_refl) as (idxs & Hsub & Hall).
    exists (k :: idxs). split; [by apply sublist_skip|].
    constructor.
    + split; [done|]. exists g. by rewrite Nat.sub_diag.
    + eapply Forall2_impl; [exact Hall|]. intros i r' (Hle & g' & Hi & Hr').
      split; [lia|]. exists g'. split; [|done].
      by replace (i - k) with (S (i - S k)) by lia.
  - rewrite filter_cons_False in Hrs by naive_solver.
    destruct (IH rs (S k) Hrs) as (idxs & Hsub & Hall).
    exists idxs. split; [by apply sublist_cons|].
    eapply Forall2_impl; [exact Hall|]. intros i r' (Hle & g' & Hi & Hr').
    split; [lia|]. exists g'. split; [|done].
    by replace (i - k) with (S (i - S k)) by lia.
Qed.

Section FanIn.
Context {Remote : Type}.
Variable service : ∀ A, Request A → Remote → Result A * Remote.

(** What [write_fairy_tales] does once the gathered pipelines have all
    returned. *)
Lemma write_fairy_tales_returns self first_prompt second_prompt schedule w rs :
  (write_fairy_tales service self first_prompt second_prompt schedule w).1 = Returns rs →
  ∃ results,
    gather (gathering service self first_prompt second_prompt schedule w) = Returns results
    ∧ (list_map (from_option tuple (Err TypeError))
         (filter (λ x, x ≠ None) results)).1 = Ok rs.
Proof.
  unfold write_fairy_tales.
  destruct (gather _) as [results| |]; [|done..].
  destruct (list_map _ _) as [[l|e] rest] eqn:E; intros ?; simplify_eq/=.
  exists results. by rewrite E.
Qed.

(** The entries returned come from the slots that hold a result, in
    increasing order. *)
Lemma write_fairy_tales_slots self first_prompt second_prompt schedule w rs :
  (write_fairy_tales service self first_prompt second_prompt schedule w).1 = Returns rs →
  ∃ idxs, idxs `sublist_of` seq 0 (length (topics self))
    ∧ Forall2
        (λ i r, ∃ topic g,
           topics self !! i = Some topic
           ∧ tasks (gathering service self first_prompt second_prompt schedule w) !! i
             = Some (Returned (Some g))
           ∧ tuple g = Ok r)
        idxs rs.
Proof.
  intros Hrs. apply write_fairy_tales_returns in Hrs as (results & Hg & Hrs).
  apply gather_returns in Hg as [_ Hts].
  destruct (kept_slots _ _ _ 0 Hts Hrs) as (idxs & Hsub & Hall).
  rewrite gathering_length in Hsub.
  exists idxs. split; [done|].
  eapply Forall2_impl; [exact Hall|]. intros i r (_ & g & Hi & Hr).
  rewrite Nat.sub_0_r in Hi.
  assert (is_Some (topics self !! i)) as [topic Htopic].
  { apply lookup_lt_is_Some. rewrite <- (gathering_length service self first_prompt
      second_prompt schedule w). by eapply lookup_lt_Some. }
  by exists topic, g.
Qed.

(** Once every pipeline has returned, the entries are the tuples of
    the generators returned, in slot order. *)
Lemma write_fairy_tales_fan_in self first_prompt second_prompt schedule w results :
  tasks (gathering service self first_prompt second_prompt schedule w)
    = Returned <$> results →
  (write_fairy_tales service self first_prompt second_prompt schedule w).1
  = match (list_map tuple (omap id results)).1 with
    | Ok l => Returns l
    | Err e => Raises e
    end.
Proof.
  intros Hts. unfold write_fairy_tales. rewrite (gather_all_returned _ results Hts).
  rewrite kept_generators.
  assert ((list_map (from_option tuple (Err TypeError)) (Some <$> omap id results)).1
          = (list_map tuple (omap id results)).1) as Hmap
    by apply (list_map_fmap (from_option tuple (Err TypeError)) Some).
  destruct (list_map _ (Some <$> _)) as [[l|e] rest];
    simpl in *; by rewrite <- Hmap.
Qed.

(** C1. For every list of topics and every interleaving of the
    pipelines, the list returned by [write_fairy_tales] is no longer than
    the list of topics, and its entries are the tuples of the pipelines
    that returned a result, taken in increasing slot order: the slots
    form a subsequence of the topic positions, and the entry at each of
    them was produced by the pipeline started for the topic in that
    position. And it does return a list once the schedule has let every
    pipeline return, if the generators returned can be consumed. *)
Theorem write_fairy_tales_order self first_prompt second_prompt schedule w :
  (∀ rs,
     (write_fairy_tales service self first_prompt second_prompt schedule w).1 = Returns rs →
     length rs ≤ length (topics self)
     ∧ ∃ idxs, idxs `sublist_of` seq 0 (length (topics self))
         ∧ Forall2
             (λ i r, ∃ topic g,
                topics self !! i = Some topic
                ∧ reaches service
                    (Running (get_fairy_tale self (first_prompt +:+ topic +:+ ".")
                                second_prompt))
                    (events_of i (history
                       (gathering service self first_prompt second_prompt schedule w)))
                    (Returned (Some g))
                ∧ tuple g = Ok r)
             idxs rs)
  ∧ (∀ results,
       tasks (gathering service self first_prompt second_prompt schedule w)
         = Returned <$> results →
       Forall (λ o, ∀ g, o = Some g → ∃ r, tuple g = Ok r) results →
       ∃ rs, (write_fairy_tales service self first_prompt second_prompt schedule w).1
             = Returns rs).
Proof.
  split.
  - intros rs Hrs. apply write_fairy_tales_slots in Hrs as (idxs & Hsub & Hall).
    split.
    { rewrite <- (Forall2_length _ _ _ Hall).
      apply sublist_length in Hsub. by rewrite length_seq in Hsub. }
    exists idxs. split; [done|].
    eapply Forall2_impl; [exact Hall|]. intros i r (topic & g & Htopic & Hi & Hr).
    destruct (gathering_reaches service self first_prompt second_prompt schedule w i topic
                Htopic) as (t & Ht & Hreach).
    exists topic, g. simplify_eq. done.
  - intros results Hts Hok. rewrite (write_fairy_tales_fan_in _ _ _ _ _ _ Hts).
    destruct (list_map tuple (omap id results)) as [[l|e] rest] eqn:E; [by eexists|].
    apply (f_equal fst), list_map_err in E as (g & Hg & He). simpl in He.
    apply list_elem_of_omap in Hg as (o & Ho & ?). simplify_eq/=.
    eapply Forall_forall in Hok; [|exact Ho]. destruct (Hok g eq_refl). congruence.
Qed.

End FanIn.

(** ** Per-topic pipelines inside the gathered run *)

Section Gathered.
Context {Remote : Type}.
Variable service : ∀ A, Request A → Remote → Result A * Remote.

(** A slot that holds a returned pipeline went through the whole
    conversation for its topic. *)
Lemma gathered_pipeline_returned self first_prompt second_prompt schedule w i topic r :
  topics self !! i = Some topic →
  tasks (gathering service self first_prompt second_prompt schedule w) !! i
    = Some (Returned r) →
  ∃ a c, assistant self = Some a
    ∧ events_of i (history (gathering service self first_prompt second_prompt schedule w))
      = transcript (assistant_id a) (first_prompt +:+ topic +:+ ".") second_prompt c
    ∧ pending (run1 c) = false ∧ pending (run2 c) = false
    ∧ polled_while_pending (created1 c) (polled1 c)
    ∧ polled_while_pending (created2 c) (polled2 c)
    ∧ r = if completed (run1 c) && completed (run2 c)
          then Some (assistant_texts (listing c)) else None.
Proof.
  intros Htopic Hi.
  destruct (gathering_reaches service self first_prompt second_prompt schedule w i topic
              Htopic) as (t & Ht & Hreach).
  simplify_eq. by apply get_fairy_tale_returned in Hreach.
Qed.

(** C3. In every interleaving, a pipeline that has returned has had
    its two runs polled until they left the pending states; it returns a
    result only if the last status seen of both runs is "completed", and
    returns [None] as soon as one of the two is anything else. *)
Theorem result_only_when_both_completed
    self first_prompt second_prompt schedule w i topic r :
  topics self !! i = Some topic →
  tasks (gathering service self first_prompt second_prompt schedule w) !! i
    = Some (Returned r) →
  ∃ a c, assistant self = Some a
    ∧ events_of i (history (gathering service self first_prompt second_prompt schedule w))
      = transcript (assistant_id a) (first_prompt +:+ topic +:+ ".") second_prompt c
    ∧ pending (run1 c) = false ∧ pending (run2 c) = false
    ∧ (is_Some r → status (run1 c) = "completed" ∧ status (run2 c) = "completed")
    ∧ (status (run1 c) ≠ "completed" ∨ status (run2 c) ≠ "completed" → r = None).
Proof.
  intros Htopic Hi.
  destruct (gathered_pipeline_returned _ _ _ _ _ _ _ _ Htopic Hi)
    as (a & c & Ha & Hev & Hp1 & Hp2 & _ & _ & ->).
  exists a, c. do 4 (split; [done|]). unfold completed.
  do 2 case_bool_decide; simpl; split; try done; try (by intros [? ?]);
    intros [?|?]; done.
Qed.

(** C5, as the code has it. A pipeline that has returned, with a
    result or with [None], began by creating its thread and ended by
    deleting that same thread, the deletion being answered without
    error. *)
Theorem thread_deleted_when_pipeline_returns
    self first_prompt second_prompt schedule w i topic r :
  topics self !! i = Some topic →
  tasks (gathering service self first_prompt second_prompt schedule w) !! i
    = Some (Returned r) →
  ∃ th tr,
    events_of i (history (gathering service self first_prompt second_prompt schedule w))
    = Ev threads_create (Ok th) :: tr ++ [Ev (threads_delete (thread_id th)) (Ok ())].
Proof.
  intros Htopic Hi.
  destruct (gathered_pipeline_returned _ _ _ _ _ _ _ _ Htopic Hi)
    as (a & c & Ha & Hev & _).
  rewrite Hev. unfold transcript, first_exchange. simpl.
  eexists (thread c), _. f_equal.
  rewrite !app_comm_cons, !app_assoc.
  change [?x; ?y] with ([x] ++ [y]). by rewrite !app_assoc.
Qed.

End Gathered.

(** ** Pipelines that fail without raising *)

Section Isolation.
Context {Remote : Type}.
Variable service : ∀ A, Request A → Remote → Result A * Remote.

(** C2, as the code has it. When every pipeline has run to its end
    without a remote operation raising, the pipelines that returned
    [None] (a run not completed) are dropped and nothing else changes:
    [write_fairy_tales] is not left waiting, and either it returns the
    tuples of the pipelines that returned a result, all of them and in
    slot order, or it raises what the conversion to a tuple of one of
    those results raises, [IndexError] for a message of the assistant that
    has no content block and [AttributeError] for one whose first block is
    not text. But when a pipeline has raised, [write_fairy_tales] raises
    its exception. *)
Theorem failed_pipeline_drops_only_its_topic
    self first_prompt second_prompt schedule w :
  (Forall (λ t, is_Some (returned t))
     (tasks (gathering service self first_prompt second_prompt schedule w)) →
   ∃ results,
     tasks (gathering service self first_prompt second_prompt schedule w)
       = Returned <$> results
     ∧ match (write_fairy_tales service self first_prompt second_prompt schedule w).1 with
       | Returns rs => Forall2 (λ g r, tuple g = Ok r) (omap id results) rs
       | Raises e =>
           ∃ data m,
             Some (assistant_texts data) ∈ results
             ∧ tuple (assistant_texts data) = Err e
             ∧ m ∈ data ∧ role m = "assistant"
             ∧ match content m with
               | [] => e = IndexError
               | MessageContentText _ :: _ => False
               | MessageContentImageFile _ :: _ => e = AttributeError
               end
       | Awaiting => False
       end)
  ∧ (∀ i e,
       tasks (gathering service self first_prompt second_prompt schedule w) !! i
         = Some (Raised e) →
       (write_fairy_tales service self first_prompt second_prompt schedule w).1
       = Raises e).
Proof.
  split.
  - intros Hall. apply all_returned in Hall as [results Hts].
    exists results. split; [done|].
    rewrite (write_fairy_tales_fan_in _ _ _ _ _ _ _ Hts).
    destruct (list_map tuple (omap id results)) as [[l|e] rest] eqn:E; simpl.
    + by apply (f_equal fst), list_map_ok in E.
    + apply (f_equal fst), list_map_err in E as (g & Hg & He).
      apply list_elem_of_omap in Hg as (o & Ho & ?). simplify_eq/=.
      destruct g as [data].
      destruct (tuple_err data e He) as (m & Hm & Hrole & Hcontent).
      by exists data, m.
  - intros i e Hi. unfold write_fairy_tales.
    by rewrite (gathering_raised _ _ _ _ _ _ _ _ Hi).
Qed.

(** C7, as the code has it. When every pipeline has returned [None]
    (each had a run that did not complete and no remote operation
    raised), [write_fairy_tales] returns the empty list. *)
Theorem all_failed_returns_empty self first_prompt second_prompt schedule w :
  Forall (λ t, t = Returned None)
    (tasks (gathering service self first_prompt second_prompt schedule w)) →
  (write_fairy_tales service self first_prompt second_prompt schedule w).1 = Returns [].
Proof.
  intros Hall.
  assert (tasks (gathering service self first_prompt second_prompt schedule w)
          = Returned <$> replicate (length (topics self)) None) as Hts.
  { rewrite <- (gathering_length service self first_prompt second_prompt schedule w).
    induction Hall as [|t ts -> _ IH]; [done|]. csimpl. by f_equal. }
  unfold write_fairy_tales. rewrite (gather_all_returned _ _ Hts).
  by rewrite no_generator_kept.
Qed.

End Isolation.

(** ** The topics *)

Lemma any_false (iterable : list string) :
  any iterable = false ↔ Forall (λ s, s = "") iterable.
Proof.
  unfold any. induction iterable as [|s l IH]; simpl.
  - split; [constructor | done].
  - rewrite orb_false_iff, IH, bool_decide_eq_false, Forall_cons.
    split; intros [Hs Hl]; (split; [|done]).
    + by destruct (decide (s = "")).
    + by intros ?.
Qed.

(** C4, as the code has it. Assigning a list of topics fails with
    [ValueError] exactly when no string of the list is non-empty, that is
    for the empty list and for lists of empty strings only; the constructor
    fails the same way, and then builds no client whose topics could be
    sent. *)
Theorem topics_need_a_non_empty_string (self : FairyTale) (value : list string) :
  (Forall (λ s, s = "") value ↔
     topics_setter self [value] = Err (ValueError "At least one topic is required."))
  ∧ (Forall (λ s, s = "") value →
       ∀ environ key, ∃ e, __init__ environ key value = Err e
         ∧ (is_Some key ∨ is_Some environ →
              e = ValueError "At least one topic is required.")).
Proof.
  split.
  - rewrite <- any_false. unfold topics_setter.
    destruct (any value); simpl; split; done.
  - intros Hvalue%any_false environ key. unfold __init__, topics_setter.
    rewrite Hvalue. simpl.
    destruct key as [k|], environ as [k'|]; simpl; eexists; (split; [done|]);
      try done. by intros [[? ?]|[? ?]].
Qed.

(** ** The document assembler *)

Lemma save_entries_files n i pdf entries :
  PDF.files (PDF.save_entries n i pdf entries).2 = PDF.files pdf.
Proof.
  revert i pdf. induction entries as [|entry entries IH]; intros i pdf; [done|].
  simpl. destruct entry as [|c [|t [|? ?]]]; try done.
  destruct c, t; try done. rewrite IH. unfold PDF.content, PDF.subtitle.
  by destruct (negb _).
Qed.

Lemma save_entries_invalid n i pdf entries :
  Exists (λ entry, ¬ ∃ c t, entry = [PDF.Str c; PDF.Str t]) entries →
  ∃ message, (PDF.save_entries n i pdf entries).1 = Err (ValueError message).
Proof.
  intros Hbad. revert i pdf.
  induction Hbad as [entry entries Hbad|entry entries _ IH]; intros i pdf; simpl.
  - destruct entry as [|c [|t [|? ?]]]; eauto.
    destruct c, t; eauto. destruct Hbad; eauto.
  - destruct entry as [|c [|t [|? ?]]]; eauto.
    destruct c, t; eauto.
Qed.

(** C9. If some entry of the list is not a pair of two strings, be it
    that its content or its title is not a string or that it is not a pair,
    [save_fairy_tales] raises [ValueError] and the files on disk are those
    there were before the call: [output] is never reached. *)
Theorem save_fairy_tales_rejects_non_text (pdf : PDF.PDF) (responses : list (list PDF.value)) :
  Exists (λ entry, ¬ ∃ c t, entry = [PDF.Str c; PDF.Str t]) responses →
  ∃ message,
    (PDF.save_fairy_tales pdf responses).1 = Err (ValueError message)
    ∧ PDF.files (PDF.save_fairy_tales pdf responses).2 = PDF.files pdf.
Proof.
  intros Hbad. unfold PDF.save_fairy_tales.
  pose proof (save_entries_invalid (length responses) 0 (PDF.title_page pdf) _ Hbad)
    as [message Hm].
  pose proof (save_entries_files (length responses) 0 (PDF.title_page pdf) responses) as Hf.
  destruct (PDF.save_entries _ _ _ _) as [[[]|e] pdf']; simplify_eq/=.
  exists message. done.
Qed.

(** ** Polling *)

Section Polling.
Context {Remote : Type}.
Variable service : ∀ A, Request A → Remote → Result A * Remote.

#[local] Abbreviation reaches := (reaches service).
#[local] Abbreviation run_task := (run_task service).
#[local] Abbreviation polls := (polls service).

(** The loop of [wait_for_response]. *)
#[local] Abbreviation polling thread run :=
  (While pending
     (λ run, Bind (Call (runs_retrieve thread (run_id run)))
               (λ run, Bind (Sleep (1 # 2)) (λ _, Ret run)))
     run).

Lemma run_task_add {R} n m (t : Task R) w :
  run_task (n + m) t w
  = let '(t1, w1, evs1) := run_task n t w in
    let '(t2, w2, evs2) := run_task m t1 w1 in
    (t2, w2, evs1 ++ evs2).
Proof.
  revert t w. induction n as [|n IH]; intros t w; simpl.
  - by destruct (run_task m t w) as [[t2 w2] evs2].
  - destruct (task_step service t w) as [[t' w'] evs]. rewrite IH.
    destruct (run_task n t' w') as [[t1 w1] evs1].
    destruct (run_task m t1 w1) as [[t2 w2] evs2]. by rewrite app_assoc.
Qed.

Lemma run_task_reaches {R} n (t : Task R) w t' w' tr :
  run_task n t w = (t', w', tr) → reaches t tr t'.
Proof.
  revert t w tr. induction n as [|n IH]; intros t w tr; simpl.
  - intros ?; simplify_eq. apply reaches_start.
  - destruct (task_step service t w) as [[t1 w1] evs] eqn:Hstep.
    destruct (run_task n t1 w1) as [[t2 w2] evs'] eqn:Hrun.
    intros ?; simplify_eq. eapply reaches_trans; [by eapply reaches_one | by eapply IH].
Qed.

(** If the [n]-th poll from now reports a status that is not pending,
    the loop stops, at the first such poll. *)
Lemma polling_terminates thread n :
  ∀ run0 w0 rs wn,
    polls n thread run0 w0 = Some (rs, wn) →
    pending (final_run run0 rs) = false →
    ∃ steps k w',
      k ≤ n
      ∧ run_task steps (Running (polling thread run0)) w0
        = (Returned (final_run run0 (take k rs)), w', poll_events thread run0 (take k rs))
      ∧ pending (final_run run0 (take k rs)) = false.
Proof.
  induction n as [|n IH]; intros run0 w0 rs wn Hpolls Hlast.
  - simpl in Hpolls. simplify_eq. eexists 2, 0, _. split; [done|].
    simpl in *. unfold final_run in *; simpl in *. by rewrite Hlast.
  - destruct (pending run0) eqn:Hp.
    + simpl in Hpolls.
      destruct (service Run (runs_retrieve thread (run_id run0)) w0)
        as [[run'|e] w1] eqn:Hsvc; [|done].
      destruct (polls n thread run' w1) as [[rs' wn']|] eqn:Hrest; simplify_eq.
      rewrite final_run_cons in Hlast.
      destruct (IH _ _ _ _ Hrest Hlast) as (steps & k & w' & Hk & Hrun & Hdone).
      exists (4 + steps), (S k), w'. split; [lia|].
      rewrite run_task_add. simpl. rewrite Hp. simpl. rewrite Hsvc. simpl.
      rewrite Hrun, final_run_cons. done.
    + exists 2, 0, w0. split; [lia|]. simpl. rewrite Hp. simpl.
      unfold final_run; simpl. by rewrite Hp.
Qed.

(** C6. [wait_for_response] creates a run and polls it; whenever it
    returns, the run it returns is the last one it was sent and its status
    is neither "queued" nor "in_progress", every run seen before having
    been pending. And if the run is created and the service, polled again
    and again, reports at its [n]-th answer a status other than these two,
    then [wait_for_response] does return, after finitely many steps and at
    most [n] polls. *)
Theorem wait_for_response_polls_until_settled (self : FairyTale) (thread : string) :
  (∀ steps w run w' tr,
     run_task steps (Running (wait_for_response self thread)) w = (Returned run, w', tr) →
     pending run = false
     ∧ ∃ a r0 rs, assistant self = Some a
         ∧ tr = wait_events thread (assistant_id a) r0 rs
         ∧ run = final_run r0 rs
         ∧ polled_while_pending r0 rs)
  ∧ (∀ a w run0 w0 n rs wn,
       assistant self = Some a →
       service _ (runs_create thread (assistant_id a)) w = (Ok run0, w0) →
       polls n thread run0 w0 = Some (rs, wn) →
       pending (final_run run0 rs) = false →
       ∃ steps k w',
         k ≤ n
         ∧ run_task steps (Running (wait_for_response self thread)) w
           = (Returned (final_run run0 (take k rs)), w',
              wait_events thread (assistant_id a) run0 (take k rs))
         ∧ pending (final_run run0 (take k rs)) = false).
Proof.
  split.
  - intros steps w run w' tr Hrun. apply run_task_reaches in Hrun.
    apply wait_for_response_returned in Hrun as (a & r0 & rs & ? & ? & ? & ? & ?).
    split; [done|]. by exists a, r0, rs.
  - intros a w run0 w0 n rs wn Ha Hcreate Hpolls Hlast.
    destruct (polling_terminates thread n _ _ _ _ Hpolls Hlast)
      as (steps & k & w' & Hk & Hrun & Hdone).
    exists (2 + steps), k, w'. split; [done|]. split; [|done].
    rewrite run_task_add. unfold wait_for_response, assistant_dot_id.
    rewrite Ha. simpl. rewrite Hcreate. simpl. by rewrite Hrun.
Qed.

End Polling.

(** ** The order of the two exchanges *)

Lemma quiet_app tr1 tr2 : quiet (tr1 ++ tr2) ↔ quiet tr1 ∧ quiet tr2.
Proof. apply Forall_app. Qed.

(** In a trace with a single post, a post can only be that one. *)
Lemma unique_post q1 p q2 pre ev post :
  quiet q1 → quiet q2 → q1 ++ p :: q2 = pre ++ ev :: post → is_post ev = true →
  pre = q1 ∧ ev = p ∧ post = q2.
Proof.
  intros Hq1 Hq2. revert pre.
  induction Hq1 as [|x q1 Hx _ IH]; intros [|y pre] Heq Hev; simplify_eq/=.
  - done.
  - apply Forall_app in Hq2 as [_ Hq2]. apply Forall_cons in Hq2 as [? _]. congruence.
  - congruence.
  - by destruct (IH pre) as (-> & -> & ->).
Qed.

Lemma no_post q pre ev post :
  quiet q → q = pre ++ ev :: post → is_post ev = true → False.
Proof.
  intros Hq -> Hev. apply Forall_app in Hq as [_ Hq].
  apply Forall_cons in Hq as [? _]. congruence.
Qed.

(** In a trace with two posts, a post that comes after a post is the
    second one. *)
Lemma second_post q1 p1 q2 p2 q3 pre ev post :
  quiet q1 → quiet q2 → quiet q3 →
  q1 ++ p1 :: q2 ++ p2 :: q3 = pre ++ ev :: post →
  is_post ev = true →
  Exists (λ e, is_post e = true) pre →
  pre = q1 ++ p1 :: q2 ∧ ev = p2 ∧ post = q3.
Proof.
  intros Hq1 Hq2 Hq3. revert pre.
  induction Hq1 as [|x q1 Hx _ IH]; intros [|y pre] Heq Hev Hpre; simpl in Heq.
  - by apply Exists_nil in Hpre.
  - injection Heq as -> Heq.
    by destruct (unique_post _ _ _ _ _ _ Hq2 Hq3 Heq Hev) as (-> & -> & ->).
  - injection Heq as -> _. congruence.
  - injection Heq as -> Heq.
    apply Exists_cons in Hpre as [?|Hpre]; [congruence|].
    by destruct (IH pre Heq Hev Hpre) as (-> & -> & ->).
Qed.

Lemma poll_events_quiet thread run rs : quiet (poll_events thread run rs).
Proof.
  revert run. induction rs as [|r rs IH]; intros run; simpl; [constructor|].
  constructor; [done | apply IH].
Qed.

Lemma wait_events_quiet thread assistant run rs :
  quiet (wait_events thread assistant run rs).
Proof. constructor; [done | apply poll_events_quiet]. Qed.

Section Exchanges.
Context {Remote : Type}.
Variable service : ∀ A, Request A → Remote → Result A * Remote.

#[local] Abbreviation reaches := (reaches service).

Lemma never_posts_step {R} (c : Co R) w :
  never_posts c →
  quiet (co_step service c w).2
  ∧ match (co_step service c w).1.1 with
    | Running c' => never_posts c'
    | _ => True
    end.
Proof.
  intros Hc. revert w.
  induction Hc as [R r|R e|A rq Hrq|seconds|A R m k _ IHm Hk _|S cond body s Hbody _];
    intros w; simpl.
  - by split; [constructor|].
  - by split; [constructor|].
  - destruct (service A rq w) as [[a|e] w']; simpl;
      (split; [|done]); repeat constructor; apply Hrq.
  - by split; [constructor|].
  - destruct (IHm w) as [Hq Ht].
    destruct (co_step service m w) as [[[m'|a|e] w'] evs]; simpl in *;
      (split; [done|]); [by constructor | apply Hk | done].
  - split; [constructor|]. destruct (cond s); [|constructor].
    constructor; [apply Hbody|]. intros s'. by constructor.
Qed.

(** Such a coroutine never posts, whatever it is answered. *)
Lemma never_posts_quiet {R} (c : Co R) tr t :
  never_posts c → reaches (Running c) tr t → quiet tr.
Proof.
  intros Hc Hreach.
  cut (quiet tr ∧ match t with Running c' => never_posts c' | _ => True end);
    [by intros [? _]|].
  induction Hreach as [|tr t w t' w' evs _ [Hq Ht] Hstep]; [by split; [constructor|]|].
  destruct t as [c'|r|e]; simpl in Hstep.
  - destruct (never_posts_step c' w Ht) as [Hq' Ht']. rewrite Hstep in Hq', Ht'.
    split; [by apply quiet_app | done].
  - simplify_eq. by rewrite app_nil_r.
  - simplify_eq. by rewrite app_nil_r.
Qed.

Lemma wait_for_response_never_posts self thread :
  never_posts (wait_for_response self thread).
Proof.
  unfold wait_for_response, assistant_dot_id.
  constructor; [destruct (assistant self); constructor|].
  intros id. constructor; [by constructor|].
  intros run. constructor. intros run'.
  constructor; [by constructor|]. intros r.
  constructor; [constructor|]. intros _. constructor.
Qed.

(** What [add_message] can have done so far. *)
Lemma add_message_reaches thread message tr t :
  reaches (Running (add_message thread message)) tr t →
  tr = [] ∨ ∃ reply, tr = [Ev (messages_create thread "user" message) reply].
Proof.
  unfold add_message. intros H.
  apply reaches_bind in H as [(m' & H & _)|[(e & H & _)|(a & tr1 & tr2 & H1 & H2 & ->)]].
  - apply reaches_call in H as [[-> _]|[(? & -> & _)|(? & -> & _)]]; eauto.
  - apply reaches_call in H as [[-> _]|[(? & -> & _)|(? & -> & _)]]; eauto.
  - apply call_returned in H1 as ->. apply reaches_ret in H2 as [-> _]. eauto.
Qed.

(** Whatever a pipeline has done so far, either it has posted at most
    once, or it has posted twice and the second message came right
    after the first run was seen settled. *)
Lemma get_fairy_tale_reaches self first_prompt second_prompt tr t :
  reaches (Running (get_fairy_tale self first_prompt second_prompt)) tr t →
  (∃ q1 q2, quiet q1 ∧ quiet q2 ∧ (tr = q1 ∨ ∃ p, tr = q1 ++ p :: q2))
  ∨ (∃ a th m r0 rs reply rest,
       assistant self = Some a
       ∧ tr = first_exchange (assistant_id a) first_prompt th m r0 rs
              ++ Ev (messages_create (thread_id th) "user" second_prompt) reply :: rest
       ∧ quiet rest
       ∧ pending (final_run r0 rs) = false
       ∧ polled_while_pending r0 rs).
Proof.
  unfold get_fairy_tale. intros H.
  assert (∀ reply, quiet [Ev threads_create reply]) as Hcreate
    by (intros; by repeat constructor).
  apply reaches_bind in H as [(m' & H & _)|[(e & H & _)|(th & tr1 & tr2 & H1 & H & ->)]].
  { left. exists tr, []. split; [|by split; [constructor | left]].
    apply reaches_call in H as [[-> _]|[(? & -> & _)|(? & -> & _)]];
      by repeat constructor. }
  { left. exists tr, []. split; [|by split; [constructor | left]].
    apply reaches_call in H as [[-> _]|[(? & -> & _)|(? & -> & _)]];
      by repeat constructor. }
  apply call_returned in H1 as ->.
  apply reaches_bind in H as [(m' & H & _)|[(e & H & _)|(u1 & tr1 & tr3 & H1 & H & ->)]].
  { left. apply add_message_reaches in H as [->|[reply ->]].
    - exists [Ev threads_create (Ok th)], []. split; [done|]. by split; [constructor | left].
    - exists [Ev threads_create (Ok th)], []. split; [done|]. split; [constructor|].
      right. by eexists. }
  { left. apply add_message_reaches in H as [->|[reply ->]].
    - exists [Ev threads_create (Ok th)], []. split; [done|]. by split; [constructor | left].
    - exists [Ev threads_create (Ok th)], []. split; [done|]. split; [constructor|].
      right. by eexists. }
  apply add_message_returned in H1 as (m1 & ->).
  apply reaches_bind in H as [(m' & H & _)|[(e & H & _)|(r1 & tr1 & tr4 & H1 & H & ->)]].
  { left. exists [Ev threads_create (Ok th)], tr3. split; [done|].
    split; [by eapply never_posts_quiet, H; apply wait_for_response_never_posts|].
    right. by eexists. }
  { left. exists [Ev threads_create (Ok th)], tr3. split; [done|].
    split; [by eapply never_posts_quiet, H; apply wait_for_response_never_posts|].
    right. by eexists. }
  pose proof (never_posts_quiet _ _ _ (wait_for_response_never_posts _ _) H1) as Hq1.
  apply wait_for_response_returned in H1 as (a & r0 & rs & Ha & -> & -> & Hp & Hrs).
  assert (∀ rest, [Ev threads_create (Ok th)]
                  ++ [Ev (messages_create (thread_id th) "user" first_prompt) (Ok m1)]
                  ++ wait_events (thread_id th) (assistant_id a) r0 rs ++ rest
                  = first_exchange (assistant_id a) first_prompt th m1 r0 rs ++ rest)
    as Hfirst by (intros; unfold first_exchange; by rewrite <- ?app_assoc).
  apply reaches_bind in H as [(m' & H & _)|[(e & H & _)|(u2 & tr1 & tr5 & H1 & H & ->)]].
  { apply add_message_reaches in H as [->|[reply ->]].
    - left. eexists [Ev threads_create (Ok th)], _. split; [done|].
      split; [exact Hq1|]. right. eexists. by rewrite app_nil_r.
    - right. exists a, th, m1, r0, rs, reply, []. rewrite Hfirst.
      split; [done|]. split; [done|]. by split; [constructor|]. }
  { apply add_message_reaches in H as [->|[reply ->]].
    - left. eexists [Ev threads_create (Ok th)], _. split; [done|].
      split; [exact Hq1|]. right. eexists. by rewrite app_nil_r.
    - right. exists a, th, m1, r0, rs, reply, []. rewrite Hfirst.
      split; [done|]. split; [done|]. by split; [constructor|]. }
  apply add_message_returned in H1 as (m2 & ->).
  right. exists a, th, m1, r0, rs, (Ok m2), tr5.
  split; [done|]. split; [by rewrite Hfirst|]. split; [|done].
  eapply never_posts_quiet, H.
  constructor; [apply wait_for_response_never_posts|]. intros run2.
  constructor; [by constructor|]. intros messages.
  constructor; [by constructor|]. intros _.
  destruct (completed _ && completed _); constructor.
Qed.

(** C8. In every interleaving, when a pipeline posts a message after
    having posted one, all it has done before is to create its thread,
    post the first prompt, create the first run and poll it while it was
    pending: the last status it has seen of the first run is neither
    "queued" nor "in_progress", and the message now posted is the second
    prompt. *)
Theorem second_message_after_first_run_settled
    self first_prompt second_prompt schedule w i topic pre ev post :
  topics self !! i = Some topic →
  events_of i (history (gathering service self first_prompt second_prompt schedule w))
    = pre ++ ev :: post →
  is_post ev = true →
  Exists (λ e, is_post e = true) pre →
  ∃ a th m r0 rs,
    assistant self = Some a
    ∧ pre = first_exchange (assistant_id a) (first_prompt +:+ topic +:+ ".") th m r0 rs
    ∧ pending (final_run r0 rs) = false
    ∧ polled_while_pending r0 rs
    ∧ ∃ reply, ev = Ev (messages_create (thread_id th) "user" second_prompt) reply.
Proof.
  intros Htopic Hev Hpost Hpre.
  destruct (gathering_reaches service self first_prompt second_prompt schedule w i topic
              Htopic) as (t & _ & Hreach).
  rewrite Hev in Hreach.
  apply get_fairy_tale_reaches in Hreach
    as [(q1 & q2 & Hq1 & Hq2 & [Heq|[p Heq]])
       |(a & th & m & r0 & rs & reply & rest & Ha & Heq & Hrest & Hp & Hrs)].
  - exfalso. by eapply (no_post q1).
  - exfalso. symmetry in Heq.
    destruct (unique_post _ _ _ _ _ _ Hq1 Hq2 Heq Hpost) as (-> & _ & _).
    apply Exists_exists in Hpre as (e & He & Hpe).
    eapply Forall_forall in Hq1; [|exact He]. congruence.
  - symmetry in Heq.
    destruct (second_post [Ev threads_create (Ok th)]
                (Ev (messages_create (thread_id th) "user"
                       (first_prompt +:+ topic +:+ ".")) (Ok m))
                (wait_events (thread_id th) (assistant_id a) r0 rs)
                (Ev (messages_create (thread_id th) "user" second_prompt) reply)
                rest pre ev post) as (-> & -> & ->);
      [by repeat constructor | apply wait_events_quiet | done
      | by rewrite <- Heq; unfold first_exchange; rewrite <- ?app_assoc
      | done | done |].
    exists a, th, m, r0, rs. eauto 10.
Qed.

End Exchanges.

(** ** The entries of the result *)

(** C10. Each entry returned by [write_fairy_tales] comes from a
    pipeline whose two runs were seen "completed", and lists, in the order
    of the listing asked in ascending order, the first text block of every
    message of the listing whose role is "assistant": it has as many
    elements as there are such messages, whatever that number is. With an
    assistant that answers the first prompt with two messages the entry has
    three elements. *)
Theorem entry_lists_all_assistant_messages :
  (∀ Remote (service : ∀ A, Request A → Remote → Result A * Remote)
     self first_prompt second_prompt schedule w rs,
     (write_fairy_tales service self first_prompt second_prompt schedule w).1 = Returns rs →
     ∃ idxs, idxs `sublist_of` seq 0 (length (topics self))
       ∧ Forall2
           (λ i r, ∃ topic a c,
              topics self !! i = Some topic
              ∧ events_of i (history
                  (gathering service self first_prompt second_prompt schedule w))
                = transcript (assistant_id a) (first_prompt +:+ topic +:+ ".") second_prompt c
              ∧ status (run1 c) = "completed" ∧ status (run2 c) = "completed"
              ∧ Forall2 (λ m v, text_value m = Ok v) (filter by_assistant (listing c)) r
              ∧ length r = length (filter by_assistant (listing c)))
           idxs rs)
  ∧ (write_fairy_tales (Mock.service Mock.chatty Mock.never_broken) (Mock.client ["cat"])
       "Tell: " "Title?" (Mock.round_robin 1 40) Mock.empty).1
    = Returns [["Sure!"; "Once upon a time."; "A title"]].
Proof.
  split; [|by vm_compute].
  intros Remote service self first_prompt second_prompt schedule w rs Hrs.
  apply write_fairy_tales_slots in Hrs as (idxs & Hsub & Hall).
  exists idxs. split; [done|].
  eapply Forall2_impl; [exact Hall|]. intros i r (topic & g & Htopic & Hi & Hr).
  destruct (gathered_pipeline_returned _ _ _ _ _ _ _ _ _ Htopic Hi)
    as (a & c & Ha & Hev & _ & _ & _ & _ & Hg).
  exists topic, a, c. do 2 (split; [done|]).
  unfold completed in Hg. do 2 case_bool_decide; simplify_eq/=.
  apply tuple_ok in Hr. do 3 (split; [done|]).
  symmetry. by eapply Forall2_length.
Qed.

(** * Concrete runs *)

Lemma write_fairy_tales_order_witness :
  (write_fairy_tales Mock.calm Mock.three "Tell: " "Title?" Mock.owl_first Mock.empty).1
    = Returns Mock.two_tales
  ∧ length Mock.two_tales ≤ length (topics Mock.three)
  ∧ ∃ idxs, idxs `sublist_of` seq 0 (length (topics Mock.three))
      ∧ Forall2
          (λ i r, ∃ topic g,
             topics Mock.three !! i = Some topic
             ∧ reaches Mock.calm
                 (Running (get_fairy_tale Mock.three ("Tell: " +:+ topic +:+ ".") "Title?"))
                 (events_of i (history
                    (gathering Mock.calm Mock.three "Tell: " "Title?" Mock.owl_first
                       Mock.empty)))
                 (Returned (Some g))
             ∧ tuple g = Ok r)
          idxs Mock.two_tales.
Proof.
  assert ((write_fairy_tales Mock.calm Mock.three "Tell: " "Title?" Mock.owl_first
             Mock.empty).1 = Returns Mock.two_tales) as H by (vm_compute; reflexivity).
  split; [exact H|].
  exact (proj1 (write_fairy_tales_order Mock.calm Mock.three "Tell: " "Title?"
                  Mock.owl_first Mock.empty) Mock.two_tales H).
Defined.

Lemma result_only_when_both_completed_witness :
  ∃ a c,
    assistant Mock.three = Some a
    ∧ events_of 1 (history
        (gathering Mock.calm Mock.three "Tell: " "Title?" Mock.owl_first Mock.empty))
      = transcript (assistant_id a) ("Tell: " +:+ "dragon" +:+ ".") "Title?" c
    ∧ pending (run1 c) = false ∧ pending (run2 c) = false
    ∧ (is_Some (@None generator) →
         status (run1 c) = "completed" ∧ status (run2 c) = "completed")
    ∧ (status (run1 c) ≠ "completed" ∨ status (run2 c) ≠ "completed" →
         @None generator = None).
Proof.
  apply (result_only_when_both_completed Mock.calm Mock.three "Tell: " "Title?"
           Mock.owl_first Mock.empty 1 "dragon" None).
  - reflexivity.
  - vm_compute. reflexivity.
Defined.

Lemma thread_deleted_when_pipeline_returns_witness :
  ∃ th tr,
    events_of 1 (history
      (gathering Mock.calm Mock.three "Tell: " "Title?" Mock.owl_first Mock.empty))
    = Ev threads_create (Ok th) :: tr ++ [Ev (threads_delete (thread_id th)) (Ok ())].
Proof.
  apply (thread_deleted_when_pipeline_returns Mock.calm Mock.three "Tell: " "Title?"
           Mock.owl_first Mock.empty 1 "dragon" None).
  - reflexivity.
  - vm_compute. reflexivity.
Defined.

(** C5 as stated fails: the request that posts the first prompt raises,
    the pipeline ends there, and its thread is never deleted. *)
Lemma thread_leaks_when_a_request_raises :
  let l := gathering Mock.flaky (Mock.client ["owl"]) "Tell: " "Title?"
             (Mock.round_robin 1 30) Mock.empty in
  tasks l !! 0 = Some (Raised (OpenAIError "Connection error."))
  ∧ events_of 0 (history l)
    = [Ev threads_create (Ok {| thread_id := "thread_0" |});
       Ev (messages_create "thread_0" "user" "Tell: owl.")
         (Err (OpenAIError "Connection error."))]
  ∧ existsb (deletes "thread_0") (events_of 0 (history l)) = false
  ∧ Mock.assoc "thread_0" (Mock.threads (remote l)) = Some []
  ∧ Mock.deleted (remote l) = [].
Proof. vm_compute. repeat split; reflexivity. Qed.

Lemma failed_pipeline_drops_only_its_topic_witness :
  Forall (λ t, is_Some (returned t))
    (tasks (gathering Mock.calm Mock.three "Tell: " "Title?" Mock.owl_first Mock.empty))
  ∧ ∃ results,
      tasks (gathering Mock.calm Mock.three "Tell: " "Title?" Mock.owl_first Mock.empty)
        = Returned <$> results
      ∧ match (write_fairy_tales Mock.calm Mock.three "Tell: " "Title?" Mock.owl_first
                 Mock.empty).1 with
        | Returns rs => Forall2 (λ g r, tuple g = Ok r) (omap id results) rs
        | Raises e => ∃ g, Some g ∈ results ∧ tuple g = Err e
        | Awaiting => False
        end.
Proof.
  assert (Forall (λ t, is_Some (returned t))
            (tasks (gathering Mock.calm Mock.three "Tell: " "Title?" Mock.owl_first
                      Mock.empty))) as H
    by (vm_compute; repeat constructor; by eexists).
  split; [exact H|].
  exact (proj1 (failed_pipeline_drops_only_its_topic Mock.calm Mock.three "Tell: "
                  "Title?" Mock.owl_first Mock.empty) H).
Defined.

(** C2 as stated fails: the first pipeline has returned its result when
    a request of the third one raises; [write_fairy_tales] raises that
    exception and returns nothing. *)
Lemma remote_error_escapes_write_fairy_tales :
  let schedule := replicate 30 0 ++ replicate 30 2 in
  let l := gathering Mock.flaky Mock.three "Tell: " "Title?" schedule Mock.empty in
  (∃ g, tasks l !! 0 = Some (Returned (Some g)))
  ∧ tasks l !! 2 = Some (Raised (OpenAIError "Connection error."))
  ∧ (write_fairy_tales Mock.flaky Mock.three "Tell: " "Title?" schedule Mock.empty).1
    = Raises (OpenAIError "Connection error.").
Proof. vm_compute. repeat split; try reflexivity. by eexists. Qed.

(** The other way [write_fairy_tales] raises: the only pipeline returns
    a result, no request having failed, and the conversion of the result
    to a tuple raises on a message that has no content block. *)
Lemma unreadable_message_raises :
  let l := gathering Demo.speechless (Mock.client ["cat"]) "Tell: " "Title?"
             (Mock.round_robin 1 30) Mock.empty in
  (∃ g, tasks l = [Returned (Some g)])
  ∧ Forall (λ e, match e.2 with Ev _ (Err _) => False | Ev _ (Ok _) => True end) (history l)
  ∧ (write_fairy_tales Demo.speechless (Mock.client ["cat"]) "Tell: " "Title?"
       (Mock.round_robin 1 30) Mock.empty).1 = Raises IndexError.
Proof.
  vm_compute. split; [by eexists|]. split; [|reflexivity]. repeat constructor.
Qed.

Lemma all_failed_returns_empty_witness :
  Forall (λ t, t = Returned None)
    (tasks (gathering Mock.calm (Mock.client ["dragon"]) "Tell: " "Title?"
              (Mock.round_robin 1 30) Mock.empty))
  ∧ (write_fairy_tales Mock.calm (Mock.client ["dragon"]) "Tell: " "Title?"
       (Mock.round_robin 1 30) Mock.empty).1 = Returns [].
Proof.
  assert (Forall (λ t, t = Returned None)
            (tasks (gathering Mock.calm (Mock.client ["dragon"]) "Tell: " "Title?"
                      (Mock.round_robin 1 30) Mock.empty))) as H
    by (vm_compute; repeat constructor).
  split; [exact H|].
  exact (all_failed_returns_empty Mock.calm (Mock.client ["dragon"]) "Tell: " "Title?"
           (Mock.round_robin 1 30) Mock.empty H).
Defined.

(** C7 as stated fails: the only pipeline fails, on a request that
    raises, and [write_fairy_tales] raises instead of returning the empty
    list. *)
Lemma all_failed_by_error_raises :
  let l := gathering Mock.flaky (Mock.client ["owl"]) "Tell: " "Title?"
             (Mock.round_robin 1 30) Mock.empty in
  tasks l = [Raised (OpenAIError "Connection error.")]
  ∧ (write_fairy_tales Mock.flaky (Mock.client ["owl"]) "Tell: " "Title?"
       (Mock.round_robin 1 30) Mock.empty).1
    = Raises (OpenAIError "Connection error.").
Proof. vm_compute. split; reflexivity. Qed.

Lemma topics_need_a_non_empty_string_witness :
  Forall (λ s, s = "") [""; ""]
  ∧ topics_setter (Mock.client ["cat"]) [[""; ""]]
    = Err (ValueError "At least one topic is required.")
  ∧ ∃ e, __init__ None (Some "sk-test") [""; ""] = Err e
      ∧ (is_Some (Some "sk-test") ∨ is_Some (@None string) →
           e = ValueError "At least one topic is required.").
Proof.
  assert (Forall (λ s, s = "") [""; ""]) as H by (repeat constructor).
  split; [exact H|]. split.
  - exact (proj1 (proj1 (topics_need_a_non_empty_string (Mock.client ["cat"]) [""; ""])) H).
  - exact (proj2 (topics_need_a_non_empty_string (Mock.client ["cat"]) [""; ""]) H
             None (Some "sk-test")).
Defined.

(** C4 as stated fails: a topic made of one space is accepted by the
    setter and by the constructor, and the prompt built from it is posted
    to the service. *)
Lemma whitespace_topic_is_accepted :
  topics_setter (Mock.client ["cat"]) [[" "]] = Ok (Mock.client [" "])
  ∧ (∃ self, __init__ None (Some "sk-test") [" "] = Ok self ∧ topics self = [" "])
  ∧ events_of 0 (history (gathering Mock.calm (Mock.client [" "]) "Tell: " "Title?"
                            (Mock.round_robin 1 30) Mock.empty)) !! 1
    = Some (Ev (messages_create "thread_0" "user" "Tell:  .")
              (Ok (Mock.text "user" "Tell:  ."))).
Proof.
  split; [reflexivity|]. split; [eexists; split; reflexivity|].
  vm_compute. reflexivity.
Qed.

Lemma save_fairy_tales_rejects_non_text_witness :
  let pdf := PDF.__init__ "fonts" "Fairy tales.pdf" [] in
  let responses := [[PDF.Str "Once upon a time."; PDF.Str "A title"];
                    [PDF.Str "Once upon a time."; PDF.NoneValue]] in
  Exists (λ entry, ¬ ∃ c t, entry = [PDF.Str c; PDF.Str t]) responses
  ∧ ∃ message,
      (PDF.save_fairy_tales pdf responses).1 = Err (ValueError message)
      ∧ PDF.files (PDF.save_fairy_tales pdf responses).2 = PDF.files pdf.
Proof.
  intros pdf responses.
  assert (Exists (λ entry, ¬ ∃ c t, entry = [PDF.Str c; PDF.Str t]) responses) as H.
  { apply Exists_cons_tl, Exists_cons_hd. intros (c & t & Heq). discriminate Heq. }
  split; [exact H|].
  exact (save_fairy_tales_rejects_non_text pdf responses H).
Defined.

Lemma wait_for_response_polls_until_settled_witness :
  ∃ steps w',
    run_task Mock.calm steps
      (Running (wait_for_response (Mock.client ["cat"]) "thread_0")) Mock.asked
    = (Returned {| run_id := "run_1"; status := "completed" |}, w',
       wait_events "thread_0" "asst_test" {| run_id := "run_1"; status := "queued" |}
         [{| run_id := "run_1"; status := "in_progress" |};
          {| run_id := "run_1"; status := "completed" |}]).
Proof.
  destruct (proj2 (wait_for_response_polls_until_settled Mock.calm
                     (Mock.client ["cat"]) "thread_0")
              {| assistant_id := "asst_test" |} Mock.asked
              {| run_id := "run_1"; status := "queued" |}
              (Mock.calm _ (runs_create "thread_0" "asst_test") Mock.asked).2
              2
              [{| run_id := "run_1"; status := "in_progress" |};
               {| run_id := "run_1"; status := "completed" |}]
              (default Mock.empty
                 (snd <$> polls Mock.calm 2 "thread_0"
                            {| run_id := "run_1"; status := "queued" |}
                            (Mock.calm _ (runs_create "thread_0" "asst_test")
                               Mock.asked).2)))
    as (steps & k & w' & Hk & Hrun & Hdone).
  - reflexivity.
  - vm_compute. reflexivity.
  - vm_compute. reflexivity.
  - reflexivity.
  - exists steps, w'. rewrite Hrun.
    destruct k as [|[|[|k]]]; [discriminate Hdone | discriminate Hdone | reflexivity | lia].
Defined.

Lemma second_message_after_first_run_settled_witness :
  let evs := events_of 0 (history (gathering Mock.calm (Mock.client ["cat"]) "Tell: "
                                     "Title?" (Mock.round_robin 1 30) Mock.empty)) in
  let ev := Ev (messages_create "thread_0" "user" "Title?") (Ok (Mock.text "user" "Title?")) in
  evs = take 5 evs ++ ev :: drop 6 evs
  ∧ ∃ a th m r0 rs,
      assistant (Mock.client ["cat"]) = Some a
      ∧ take 5 evs = first_exchange (assistant_id a) ("Tell: " +:+ "cat" +:+ ".") th m r0 rs
      ∧ pending (final_run r0 rs) = false
      ∧ polled_while_pending r0 rs
      ∧ ∃ reply, ev = Ev (messages_create (thread_id th) "user" "Title?") reply.
Proof.
  intros evs ev.
  assert (evs = take 5 evs ++ ev :: drop 6 evs) as H by (vm_compute; reflexivity).
  split; [exact H|].
  apply (second_message_after_first_run_settled Mock.calm (Mock.client ["cat"]) "Tell: "
           "Title?" (Mock.round_robin 1 30) Mock.empty 0 "cat" (take 5 evs) ev (drop 6 evs)).
  - reflexivity.
  - exact H.
  - reflexivity.
  - vm_compute. apply Exists_cons_tl, Exists_cons_hd. reflexivity.
Defined.

Lemma entry_lists_all_assistant_messages_witness :
  ∃ idxs, idxs `sublist_of` seq 0 (length (topics Mock.three))
    ∧ Forall2
        (λ i r, ∃ topic a c,
           topics Mock.three !! i = Some topic
           ∧ events_of i (history
               (gathering Mock.calm Mock.three "Tell: " "Title?" Mock.owl_first Mock.empty))
             = transcript (assistant_id a) ("Tell: " +:+ topic +:+ ".") "Title?" c
           ∧ status (run1 c) = "completed" ∧ status (run2 c) = "completed"
           ∧ Forall2 (λ m v, text_value m = Ok v) (filter by_assistant (listing c)) r
           ∧ length r = length (filter by_assistant (listing c)))
        idxs Mock.two_tales.
Proof.
  apply (proj1 entry_lists_all_assistant_messages Mock.World Mock.calm Mock.three
           "Tell: " "Title?" Mock.owl_first Mock.empty Mock.two_tales).
  vm_compute. reflexivity.
Defined.


(** * More of the program *)

(** ** Documents *)

Lemma call_call pdf ops1 ops2 :
  PDF.call (PDF.call pdf ops1) ops2 = PDF.call pdf (ops1 ++ ops2).
Proof. unfold PDF.call; simpl. by rewrite app_assoc. Qed.

Lemma call_nil pdf : PDF.call pdf [] = pdf.
Proof. destruct pdf. unfold PDF.call; simpl. by rewrite app_nil_r. Qed.

(** The loop over entries that are pairs of strings: one section per
    entry, in order, and a new page after each entry but the last. *)
Lemma save_entries_text_pairs n i pdf (tales : list (string * string)) :
  i + length tales = n →
  ∃ new,
    PDF.save_entries n i pdf ((λ tale, [PDF.Str tale.1; PDF.Str tale.2]) <$> tales)
    = (Ok (), PDF.call pdf new)
    ∧ section_titles new = tales.*2
    ∧ body_texts new = tales.*1
    ∧ pages_added new = length tales - 1
    ∧ last new = if tales is [] then None else Some (PDF.write "
").
Proof.
  revert i pdf. induction tales as [|[c t] tales IH]; intros i pdf Hn.
  { exists []. rewrite call_nil. done. }
  simpl in Hn.
  destruct (IH (S i) (PDF.content (PDF.subtitle pdf t) c (bool_decide (i = n - 1))))
    as (new & Hsave & Htitles & Htexts & Hpages & Hlast); [lia|].
  csimpl. rewrite Hsave. unfold PDF.content, PDF.subtitle.
  case_bool_decide as Hi; simpl.
  - assert (tales = []) as -> by (destruct tales; [done | simpl in Hn; lia]).
    apply last_None in Hlast as ->.
    eexists. rewrite !call_call. split; [done|]. done.
  - eexists. rewrite !call_call. split; [done|]. simpl.
    rewrite Htitles, Htexts, Hpages. do 2 (split; [done|]).
    destruct tales as [|tale tales]; [simpl in Hn; lia|].
    split; [simpl; lia|].
    destruct new as [|op new]; [done|]. by rewrite !last_cons_cons.
Qed.

(** What the loop of [save_fairy_tales] accepts. *)
Lemma save_entries_ok n i pdf entries :
  (PDF.save_entries n i pdf entries).1 = Ok () ↔ Forall text_pair entries.
Proof.
  revert i pdf. induction entries as [|entry entries IH]; intros i pdf; simpl.
  { split; [constructor | done]. }
  rewrite Forall_cons. unfold text_pair at 1.
  destruct entry as [|c [|t [|? ?]]];
    try (split; [done | by intros [(? & ? & ?) _]]).
  destruct c, t; try (split; [done | by intros [(? & ? & ?) _]]).
  rewrite IH. split; [eauto | by intros [_ ?]].
Qed.

(** X1. Given pairs of strings, the loop of [save_fairy_tales] raises
    nothing and the document is output once, at its path: it takes the
    place of the file that was at that path, if any, the other files stay,
    and it holds all the calls of the document. The calls added start one
    section per entry, in the order of the entries and under their titles,
    and write the contents in the same order. They open two pages for the
    title page (the one of the title and of the table of contents, and the
    one that the placeholder of the table opens) and one more after each
    entry but the last: one page more than there are entries, and two when
    there is none, not counting the pages a long text opens by itself. So
    the document ends with an empty page exactly when there is no
    entry. *)
Theorem save_fairy_tales_document (pdf : PDF.PDF) (tales : list (string * string)) :
  let saved := PDF.save_fairy_tales pdf
                 ((λ tale, [PDF.Str tale.1; PDF.Str tale.2]) <$> tales) in
  saved.1 = Ok ()
  ∧ PDF.path saved.2 = PDF.path pdf
  ∧ PDF.files saved.2
    = (PDF.path pdf, PDF.calls saved.2)
      :: filter (λ file, file.1 ≠ PDF.path pdf) (PDF.files pdf)
  ∧ ∃ new,
      PDF.calls saved.2 = PDF.calls pdf ++ new
      ∧ section_titles new = tales.*2
      ∧ body_texts new = tales.*1
      ∧ pages_added new = S (max 1 (length tales))
      ∧ (ends_with_empty_page new = true ↔ tales = []).
Proof.
  intros saved. subst saved. unfold PDF.save_fairy_tales.
  destruct (save_entries_text_pairs (length tales) 0 (PDF.title_page pdf) tales eq_refl)
    as (new & Hsave & Htitles & Htexts & Hpages & Hlast).
  rewrite length_fmap, Hsave. unfold PDF.title_page. rewrite call_call. simpl.
  do 3 (split; [done|]). eexists. split; [done|]. simpl.
  split; [exact Htitles|]. split; [exact Htexts|].
  rewrite Hpages. split; [destruct tales; simpl; lia|].
  unfold ends_with_empty_page.
  destruct new as [|op new].
  - destruct tales; [done | discriminate Hlast].
  - destruct tales as [|tale tales]; [by apply last_None in Hlast|].
    by rewrite !last_cons_cons, Hlast.
Qed.

Lemma save_fairy_tales_ok pdf responses :
  (PDF.save_fairy_tales pdf responses).1 = Ok () ↔ Forall text_pair responses.
Proof.
  unfold PDF.save_fairy_tales. rewrite <- (save_entries_ok (length responses) 0
    (PDF.title_page pdf) responses).
  by destruct (PDF.save_entries _ _ _ _) as [[[]|e] pdf'].
Qed.

Lemma text_pair_of_strings (r : list string) :
  text_pair (map PDF.Str r) ↔ length r = 2.
Proof.
  unfold text_pair. destruct r as [|c [|t [|? ?]]]; simpl;
    (split; [by intros (? & ? & ?) | try done]).
  intros _. by exists c, t.
Qed.

Lemma save_entries_of_strings n i pdf (rs : list (list string)) e :
  (PDF.save_entries n i pdf (PDF.of_responses rs)).1 = Err e →
  e = ValueError "not enough values to unpack"
  ∨ e = ValueError "too many values to unpack".
Proof.
  revert i pdf. induction rs as [|r rs IH]; intros i pdf; simpl; [done|].
  destruct r as [|c [|t [|? ?]]]; simpl; try (intros ?; simplify_eq; by auto).
  apply IH.
Qed.

(** X2. The tuples returned by [write_fairy_tales], handed to
    [save_fairy_tales], are accepted exactly when each of them has two
    elements. Otherwise the call raises [ValueError] from the unpacking of
    the first tuple that has not (never the "Invalid response." of the
    check on strings), and writes no file. *)
Theorem save_fairy_tales_of_responses (pdf : PDF.PDF) (rs : list (list string)) :
  let saved := PDF.save_fairy_tales pdf (PDF.of_responses rs) in
  (saved.1 = Ok () ↔ Forall (λ r, length r = 2) rs)
  ∧ (∀ e, saved.1 = Err e →
       (e = ValueError "not enough values to unpack"
        ∨ e = ValueError "too many values to unpack")
       ∧ PDF.files saved.2 = PDF.files pdf).
Proof.
  intros saved. subst saved. split.
  - rewrite save_fairy_tales_ok. unfold PDF.of_responses.
    rewrite Forall_fmap. apply Forall_iff. intros r. apply text_pair_of_strings.
  - intros e. unfold PDF.save_fairy_tales.
    pose proof (save_entries_of_strings (length (PDF.of_responses rs)) 0
                  (PDF.title_page pdf) rs) as He.
    pose proof (save_entries_files (length (PDF.of_responses rs)) 0
                  (PDF.title_page pdf) (PDF.of_responses rs)) as Hf.
    destruct (PDF.save_entries _ _ _ _) as [[[]|e'] pdf']; simpl in *; [done|].
    intros ?; simplify_eq. split; [by apply He | done].
Qed.

(** ** The assistant *)

Section Assistants.
Context {Remote : Type}.
Variable service : ∀ A, Request A → Remote → Result A * Remote.

#[local] Abbreviation reaches := (reaches service).
#[local] Abbreviation run_task := (run_task service).

Lemma create_assistant_returned self name description model tr self' a :
  reaches (Running (create_assistant self name description model)) tr (Returned (self', a)) →
  tr = [Ev (assistants_create name description model) (Ok a)]
  ∧ assistant self' = Some a
  ∧ topics self' = topics self.
Proof.
  unfold create_assistant. intros H.
  apply reaches_bind_returned in H as (a' & tr1 & tr2 & H1 & H2 & ->).
  apply call_returned in H1 as ->. apply ret_returned in H2 as [-> ?].
  by simplify_eq.
Qed.

(** What [delete_assistant] can have done so far, for a client that has
    an assistant. *)
Lemma delete_assistant_reaches self a tr t :
  assistant self = Some a →
  reaches (Running (delete_assistant self)) tr t →
  match t with
  | Running _ => tr = [] ∨ tr = [Ev (assistants_delete (assistant_id a)) (Ok ())]
  | Returned self' =>
      tr = [Ev (assistants_delete (assistant_id a)) (Ok ())]
      ∧ assistant self' = None ∧ topics self' = topics self
  | Raised e => tr = [Ev (assistants_delete (assistant_id a)) (Err e)]
  end.
Proof.
  intros Ha. unfold delete_assistant, assistant_dot_id. rewrite Ha. intros H.
  apply reaches_bind in H as [(m' & H & ->)|[(e & H & ->)|(id & tr1 & tr2 & H1 & H & ->)]].
  { apply reaches_ret in H as [-> _]. by left. }
  { apply reaches_ret in H as [-> [?|?]]; done. }
  apply ret_returned in H1 as [-> ->]. simpl.
  apply reaches_bind in H as [(m' & H & ->)|[(e & H & ->)|(u & tr1 & tr3 & H1 & H & ->)]].
  { apply reaches_call in H as [[-> _]|[(? & _ & ?)|(? & _ & ?)]]; by auto. }
  { apply reaches_call in H as [[_ ?]|[(? & _ & ?)|(? & -> & ?)]]; by simplify_eq. }
  apply call_returned in H1 as ->. destruct u.
  apply reaches_ret in H as [-> [->| ->]]; simpl; auto.
Qed.

(** X3. When [create_assistant] returns, it has made one request and
    the client it returns holds the assistant the service answered, with
    the topics unchanged. When [delete_assistant] then returns, it has made
    one request, the deletion of that very assistant, and the client holds
    no assistant any more. *)
Theorem assistant_created_then_deleted
    self name description model steps w self' a w' tr :
  run_task steps (Running (create_assistant self name description model)) w
    = (Returned (self', a), w', tr) →
  tr = [Ev (assistants_create name description model) (Ok a)]
  ∧ assistant self' = Some a
  ∧ topics self' = topics self
  ∧ ∀ steps' w1 self'' w2 tr',
      run_task steps' (Running (delete_assistant self')) w1 = (Returned self'', w2, tr') →
      tr' = [Ev (assistants_delete (assistant_id a)) (Ok ())]
      ∧ assistant self'' = None
      ∧ topics self'' = topics self.
Proof.
  intros Hcreate%run_task_reaches.
  apply create_assistant_returned in Hcreate as (-> & Ha & Htopics).
  do 3 (split; [done|]).
  intros steps' w1 self'' w2 tr' Hdelete%run_task_reaches.
  apply (delete_assistant_reaches _ a) in Hdelete as (-> & ? & ?); [|done].
  split; [done|]. split; [done|]. congruence.
Qed.

(** A coroutine makes only the requests it is made of. *)
Lemma only_calls_step (allowed : Event → Prop) {R} (c : Co R) w :
  only_calls allowed c →
  Forall allowed (co_step service c w).2
  ∧ match (co_step service c w).1.1 with
    | Running c' => only_calls allowed c'
    | _ => True
    end.
Proof.
  intros Hc. revert w.
  induction Hc as [R r|R e|A rq Hrq|seconds|A R m k _ IHm Hk _|S cond body s Hbody _];
    intros w; simpl.
  - by split; [constructor|].
  - by split; [constructor|].
  - destruct (service A rq w) as [[a|e] w']; simpl;
      (split; [|done]); repeat constructor; apply Hrq.
  - by split; [constructor|].
  - destruct (IHm w) as [Hq Ht].
    destruct (co_step service m w) as [[[m'|a|e] w'] evs]; simpl in *;
      (split; [done|]); [by constructor | apply Hk | done].
  - split; [constructor|]. destruct (cond s); [|constructor].
    constructor; [apply Hbody|]. intros s'. by constructor.
Qed.

Lemma only_calls_trace (allowed : Event → Prop) {R} (c : Co R) tr t :
  only_calls allowed c → reaches (Running c) tr t → Forall allowed tr.
Proof.
  intros Hc Hreach.
  cut (Forall allowed tr ∧ match t with Running c' => only_calls allowed c' | _ => True end);
    [by intros [? _]|].
  induction Hreach as [|tr t w t' w' evs _ [Hq Ht] Hstep]; [by split; [constructor|]|].
  destruct t as [c'|r|e]; simpl in Hstep.
  - destruct (only_calls_step allowed c' w Ht) as [Hq' Ht']. rewrite Hstep in Hq', Ht'.
    split; [by apply Forall_app | done].
  - simplify_eq. by rewrite app_nil_r.
  - simplify_eq. by rewrite app_nil_r.
Qed.

Lemma wait_for_response_on_thread self thread :
  only_calls (on_thread thread) (wait_for_response self thread).
Proof.
  unfold wait_for_response, assistant_dot_id.
  constructor; [destruct (assistant self); constructor|].
  intros id. constructor; [by constructor|].
  intros run. constructor. intros run'.
  constructor; [by constructor|]. intros r.
  constructor; [constructor|]. intros _. constructor.
Qed.

(** Without an assistant, [wait_for_response] makes no request and
    does not return. *)
Lemma wait_for_response_without_assistant self thread tr t :
  assistant self = None →
  reaches (Running (wait_for_response self thread)) tr t →
  tr = [] ∧ ∀ run, t ≠ Returned run.
Proof.
  intros Ha. unfold wait_for_response, assistant_dot_id. rewrite Ha. intros H.
  apply reaches_bind in H as [(m' & H & ->)|[(e & H & ->)|(id & tr1 & tr2 & H1 & H & ->)]].
  - by apply reaches_raise in H as [-> _].
  - by apply reaches_raise in H as [-> _].
  - apply reaches_raise in H1 as [_ [?|?]]; done.
Qed.

Lemma get_fairy_tale_without_assistant self first_prompt second_prompt tr t :
  assistant self = None →
  reaches (Running (get_fairy_tale self first_prompt second_prompt)) tr t →
  Forall (λ ev, ¬ about_run ev) tr ∧ ∀ r, t ≠ Returned r.
Proof.
  intros Ha H. split.
  - revert H. unfold get_fairy_tale. intros H.
    apply reaches_bind in H as [(m' & H & _)|[(e & H & _)|(th & tr1 & tr2 & H1 & H & ->)]].
    { apply reaches_call in H as [[-> _]|[(? & -> & _)|(? & -> & _)]];
        repeat constructor; by intros []. }
    { apply reaches_call in H as [[-> _]|[(? & -> & _)|(? & -> & _)]];
        repeat constructor; by intros []. }
    apply call_returned in H1 as ->. constructor; [by intros []|].
    apply reaches_bind in H as [(m' & H & _)|[(e & H & _)|(u & tr1 & tr3 & H1 & H & ->)]].
    { apply add_message_reaches in H as [->|[reply ->]]; repeat constructor; by intros []. }
    { apply add_message_reaches in H as [->|[reply ->]]; repeat constructor; by intros []. }
    apply add_message_returned in H1 as (m1 & ->). constructor; [by intros []|].
    apply reaches_bind in H as [(m' & H & _)|[(e & H & _)|(r1 & tr1 & tr4 & H1 & H & ->)]].
    { apply wait_for_response_without_assistant in H as [-> _]; [constructor | done]. }
    { apply wait_for_response_without_assistant in H as [-> _]; [constructor | done]. }
    apply wait_for_response_without_assistant in H1 as [_ Hno]; [|done].
    by destruct (Hno r1).
  - intros r ->. apply get_fairy_tale_returned in H as (a & c & Ha' & _). congruence.
Qed.

End Assistants.

(** ** Slots and histories *)

Lemma events_of_elem i ev (h : list (nat * Event)) :
  (i, ev) ∈ h → ev ∈ events_of i h.
Proof.
  intros Hin. unfold events_of. apply list_elem_of_fmap.
  exists (i, ev). split; [done|]. by apply list_elem_of_filter.
Qed.

Lemma events_of_out (h : list (nat * Event)) n i :
  Forall (λ e, e.1 < n) h → n ≤ i → events_of i h = [].
Proof.
  intros Hh Hi. unfold events_of. induction Hh as [|e h He _ IH]; [done|].
  rewrite filter_cons_False by lia. done.
Qed.

Section Slots.
Context {Remote : Type}.
Variable service : ∀ A, Request A → Remote → Result A * Remote.

Lemma loop_step_tags {R} j (l : Loop R) n :
  length (tasks l) ≤ n →
  Forall (λ e, e.1 < n) (history l) →
  Forall (λ e, e.1 < n) (history (loop_step service j l)).
Proof.
  intros Hn Hh. unfold loop_step. destruct (tasks l !! j) as [t|] eqn:Hj; [|done].
  destruct (task_step service t (remote l)) as [[t' w'] evs]. simpl.
  apply Forall_app. split; [done|]. apply Forall_fmap, Forall_true. intros ev. simpl.
  apply lookup_lt_Some in Hj. lia.
Qed.

Lemma run_loop_tags {R} schedule (l : Loop R) n :
  length (tasks l) ≤ n →
  Forall (λ e, e.1 < n) (history l) →
  Forall (λ e, e.1 < n) (history (run_loop service schedule l)).
Proof.
  revert l. induction schedule as [|j schedule IH]; intros l Hn Hh; simpl; [done|].
  destruct (failure l); [done|]. apply IH.
  - by rewrite loop_step_length.
  - by apply loop_step_tags.
Qed.

(** The interactions of the gathered run are those of the pipelines. *)
Lemma gathering_tags self first_prompt second_prompt schedule w :
  Forall (λ e, e.1 < length (topics self))
    (history (gathering service self first_prompt second_prompt schedule w)).
Proof.
  unfold gathering. apply run_loop_tags; [|constructor].
  unfold spawn, pipelines; simpl. by rewrite !length_fmap.
Qed.

(** X4. If [write_fairy_tales] is called on a client that has no
    assistant, then, in every interleaving and whatever the service
    answers, no run is ever created or polled and no pipeline returns; so,
    as there is at least one topic, [write_fairy_tales] returns no list. *)
Theorem without_assistant_nothing_is_generated
    self first_prompt second_prompt schedule w :
  assistant self = None →
  Forall (λ e, ¬ about_run e.2)
    (history (gathering service self first_prompt second_prompt schedule w))
  ∧ (∀ i r, tasks (gathering service self first_prompt second_prompt schedule w) !! i
            ≠ Some (Returned r))
  ∧ (topics self ≠ [] →
     ∀ rs, (write_fairy_tales service self first_prompt second_prompt schedule w).1
           ≠ Returns rs).
Proof.
  intros Ha.
  assert (∀ i r, tasks (gathering service self first_prompt second_prompt schedule w) !! i
                 ≠ Some (Returned r)) as Hnone.
  { intros i r Hi.
    assert (is_Some (topics self !! i)) as [topic Htopic].
    { apply lookup_lt_is_Some. rewrite <- (gathering_length service self first_prompt
        second_prompt schedule w). by eapply lookup_lt_Some. }
    destruct (gathering_reaches service self first_prompt second_prompt schedule w i topic
                Htopic) as (t & Ht & Hreach).
    simplify_eq.
    by apply get_fairy_tale_without_assistant in Hreach as [_ Hno]; [eapply Hno|]. }
  split; [|split; [done|]].
  - apply Forall_forall. intros [i ev] Hin. simpl.
    pose proof (gathering_tags self first_prompt second_prompt schedule w) as Htags.
    eapply Forall_forall in Htags; [|exact Hin]. simpl in Htags.
    apply lookup_lt_is_Some in Htags as [topic Htopic].
    destruct (gathering_reaches service self first_prompt second_prompt schedule w i topic
                Htopic) as (t & Ht & Hreach).
    apply get_fairy_tale_without_assistant in Hreach as [Hall _]; [|done].
    eapply Forall_forall in Hall; [exact Hall|]. by apply events_of_elem.
  - intros Htopics rs Hrs.
    apply write_fairy_tales_returns in Hrs as (results & Hg & _).
    apply gather_returns in Hg as [_ Hts].
    pose proof (gathering_length service self first_prompt second_prompt schedule w) as Hlen.
    destruct (tasks (gathering service self first_prompt second_prompt schedule w))
      as [|t ts] eqn:Etasks.
    { destruct (topics self); [done | simpl in Hlen; lia]. }
    apply Forall2_cons_inv_l in Hts as (r & results' & Ht & _ & _).
    destruct t as [|r'|]; simplify_eq/=.
    by apply (Hnone 0 r).
Qed.

(** X5. In every interleaving, the first request of a pipeline creates
    a thread, and that is all it does if the creation fails; the request
    that follows posts, with the role "user", the first prompt followed by
    the topic of its slot and a full stop; and every request it makes
    after the creation is made on the thread it was given: a pipeline
    creates one thread and never touches another. *)
Theorem pipeline_keeps_to_its_thread
    self first_prompt second_prompt schedule w i topic ev rest :
  topics self !! i = Some topic →
  events_of i (history (gathering service self first_prompt second_prompt schedule w))
    = ev :: rest →
  ∃ reply, ev = Ev threads_create reply
    ∧ match reply with
      | Err _ => rest = []
      | Ok th =>
          Forall (on_thread (thread_id th)) rest
          ∧ ∀ ev' rest', rest = ev' :: rest' →
              ∃ reply', ev' = Ev (messages_create (thread_id th) "user"
                                    (first_prompt +:+ topic +:+ ".")) reply'
      end.
Proof.
  intros Htopic Hev.
  destruct (gathering_reaches service self first_prompt second_prompt schedule w i topic
              Htopic) as (t & _ & H).
  rewrite Hev in H. unfold get_fairy_tale in H.
  apply reaches_bind in H as [(m' & H & _)|[(e & H & _)|(th & tr1 & tr2 & H1 & H & Heq)]].
  { apply reaches_call in H as [[? _]|[(a & ? & _)|(e' & ? & _)]]; simplify_eq.
    - by exists (Ok a).
    - by exists (Err e'). }
  { apply reaches_call in H as [[? _]|[(a & ? & _)|(e' & ? & _)]]; simplify_eq.
    - by exists (Ok a).
    - by exists (Err e'). }
  apply call_returned in H1 as ->. simplify_eq/=.
  exists (Ok th). split; [done|]. split.
  - eapply only_calls_trace; [|exact H].
    constructor; [unfold add_message; repeat constructor|]. intros _.
    constructor; [apply wait_for_response_on_thread|]. intros run1.
    constructor; [unfold add_message; repeat constructor|]. intros _.
    constructor; [apply wait_for_response_on_thread|]. intros run2.
    constructor; [by constructor|]. intros messages.
    constructor; [by constructor|]. intros _.
    destruct (completed _ && completed _); constructor.
  - intros ev' rest' ->.
    apply reaches_bind in H as [(m' & H & _)|[(e & H & _)|(u & tr1 & tr3 & H1 & H & Heq)]].
    + apply add_message_reaches in H as [?|[reply ?]]; simplify_eq. by exists reply.
    + apply add_message_reaches in H as [?|[reply ?]]; simplify_eq. by exists reply.
    + apply add_message_returned in H1 as (m & ->). simplify_eq/=. by eexists.
Qed.

End Slots.

(** ** The main coroutine *)

Lemma init_ok environ key ts self :
  __init__ environ key ts = Ok self →
  topics self = ts ∧ assistant self = None ∧ any ts = true.
Proof.
  unfold __init__, topics_setter.
  destruct (AsyncOpenAI_init environ key) as [k|e]; [|done].
  destruct (any ts); simpl; [|done]. intros ?; by simplify_eq.
Qed.

Lemma handler_out e out :
  ∃ more, (Main.handler e out).2 = out ++ more
    ∧ (∀ message, e = OpenAIError message →
         Main.handler e out = (Main.Finished, out ++ [message]))
    ∧ ((∀ message, e ≠ OpenAIError message) → Main.handler e out = (Main.Uncaught e, out)).
Proof.
  destruct e as [m| | | |]; simpl.
  - exists [m]. split; [done|]. split; [by intros ? [= ->]|]. intros H. by destruct (H m).
  - exists []. by rewrite app_nil_r.
  - exists []. by rewrite app_nil_r.
  - exists []. by rewrite app_nil_r.
  - exists []. by rewrite app_nil_r.
Qed.

(** Two-element tuples are pairs. *)
Lemma pairs_of_tuples (rs : list (list string)) :
  Forall (λ r, length r = 2) rs →
  ∃ tales : list (string * string),
    rs = (λ tale, [tale.1; tale.2]) <$> tales
    ∧ PDF.of_responses rs = (λ tale, [PDF.Str tale.1; PDF.Str tale.2]) <$> tales.
Proof.
  induction 1 as [|r rs Hr _ (tales & -> & Heq)]; [by exists []|].
  destruct r as [|c [|t [|? ?]]]; try done.
  exists ((c, t) :: tales). split; [done|].
  unfold PDF.of_responses in *. csimpl. by f_equal.
Qed.

Section Running.
Context {Remote : Type}.
Variable service : ∀ A, Request A → Remote → Result A * Remote.

#[local] Abbreviation reaches := (reaches service).

Lemma write_fairy_tales_frame self first_prompt second_prompt schedule w :
  let generated := write_fairy_tales service self first_prompt second_prompt schedule w in
  assistant generated.2 = assistant self
  ∧ topics generated.2 = topics self
  ∧ ∀ rs, generated.1 = Returns rs → responses generated.2 = tuples rs.
Proof.
  unfold write_fairy_tales.
  destruct (gather _) as [results|e|]; simpl; [|done..].
  destruct (list_map _ _) as [[l|e] rest]; simpl; [|done].
  do 2 (split; [done|]). by intros rs [= ->].
Qed.

(** A step of a task of the loop leaves alone the interactions of a
    slot beyond the tasks. *)
Lemma loop_step_outside {T} i (l : Loop T) slot :
  length (tasks l) ≤ slot →
  events_of slot (history (loop_step service i l)) = events_of slot (history l).
Proof.
  intros Hslot. unfold loop_step. destruct (tasks l !! i) as [t|] eqn:Hi; [|done].
  destruct (task_step service t (remote l)) as [[t' w'] evs]. simpl.
  apply lookup_lt_Some in Hi.
  rewrite events_of_app, events_of_other by lia. by rewrite app_nil_r.
Qed.

(** What the main coroutine has done while it awaited. *)
Lemma await_with_reaches {R T} slot schedule (main : Task R) (l : Loop T) main' l' :
  await_with service slot schedule main l = (main', l') →
  length (tasks l) ≤ slot →
  length (tasks l') = length (tasks l)
  ∧ ∃ tr, events_of slot (history l') = events_of slot (history l) ++ tr
      ∧ reaches main tr main'.
Proof.
  revert main l. induction schedule as [|[i|] schedule IH]; intros main l Hawait Hslot.
  - assert (main' = main ∧ l' = l) as [-> ->] by (destruct main; simpl in *; by simplify_eq).
    split; [done|]. exists []. rewrite app_nil_r. split; [done | apply reaches_start].
  - destruct main as [c|r|e]; simpl in Hawait;
      try (simplify_eq; split; [done|]; exists []; rewrite app_nil_r;
           split; [done | apply reaches_start]).
    apply IH in Hawait as (Hlen & tr & Hev & Hreach); [|by rewrite loop_step_length].
    rewrite loop_step_length in Hlen. rewrite loop_step_outside in Hev by done.
    split; [done|]. by exists tr.
  - destruct main as [c|r|e]; simpl in Hawait;
      try (simplify_eq; split; [done|]; exists []; rewrite app_nil_r;
           split; [done | apply reaches_start]).
    destruct (co_step service c (remote l)) as [[t w'] evs] eqn:Hstep.
    apply IH in Hawait as (Hlen & tr & Hev & Hreach); [|done]. simpl in *.
    split; [done|]. exists (evs ++ tr).
    rewrite Hev, events_of_app, events_of_same, app_assoc. split; [done|].
    eapply reaches_trans; [|exact Hreach]. by eapply reaches_one.
Qed.

(** The [finally] clause of a client that has an assistant: unless it
    is still waiting, it has asked once for the deletion of that
    assistant, and how [run] ends depends on the answer. *)
Lemma finally_deletes fairy_tale a pending shutdown out (l : Loop (option generator)) disk :
  assistant fairy_tale = Some a →
  length (tasks l) ≤ length (topics fairy_tale) →
  Main.exit (Main.finally service fairy_tale pending shutdown out l disk) ≠ Main.Blocked →
  ∃ reply,
    events_of (length (topics fairy_tale))
      (history (Main.loop (Main.finally service fairy_tale pending shutdown out l disk)))
    = events_of (length (topics fairy_tale)) (history l)
      ++ [Ev (assistants_delete (assistant_id a)) reply]
    ∧ Main.exit (Main.finally service fairy_tale pending shutdown out l disk)
      = match reply with
        | Ok _ => pending
        | Err (OpenAIError _) => Main.Finished
        | Err e => Main.Uncaught e
        end.
Proof.
  intros Ha Hslot. unfold Main.finally. rewrite Ha.
  destruct (await_with _ _ _ _ _) as [t l'] eqn:Hawait.
  apply await_with_reaches in Hawait as (_ & tr & Hev & Hreach); [|done].
  apply (delete_assistant_reaches _ _ a) in Hreach; [|done].
  destruct t as [c|self'|e]; simpl.
  - done.
  - destruct Hreach as (-> & _). intros _. by exists (Ok ()).
  - subst tr. intros _. exists (Err e). by destruct e.
Qed.

Lemma finally_files fairy_tale pending shutdown out (l : Loop (option generator)) disk :
  Main.files (Main.finally service fairy_tale pending shutdown out l disk) = disk.
Proof.
  unfold Main.finally. destruct (assistant fairy_tale); [|done].
  destruct (await_with _ _ _ _ _) as [[c|self'|[]] l']; done.
Qed.

Lemma finally_stdout fairy_tale pending shutdown out (l : Loop (option generator)) disk :
  ∃ more,
    Main.stdout (Main.finally service fairy_tale pending shutdown out l disk) = out ++ more.
Proof.
  unfold Main.finally. destruct (assistant fairy_tale); [|by exists []; rewrite app_nil_r].
  destruct (await_with _ _ _ _ _) as [[c|self'|[]] l']; simpl;
    rewrite <- ?app_assoc; by eexists.
Qed.

Lemma finally_without_assistant fairy_tale pending shutdown out
    (l : Loop (option generator)) disk :
  assistant fairy_tale = None →
  Main.finally service fairy_tale pending shutdown out l disk
  = {| Main.exit := pending; Main.stdout := out; Main.loop := l; Main.files := disk |}.
Proof. intros Ha. unfold Main.finally. by rewrite Ha. Qed.

End Running.

Section Run.
Context {Remote : Type}.
Variable service : ∀ A, Request A → Remote → Result A * Remote.

(** [run] once the arguments are read, the client is built and the
    assistant is created. *)
Lemma run_started environ args stdin current_dir cwd disk boot schedule shutdown w
    ts self0 self1 a w1 tr1 :
  Main.key_required environ && bool_decide (Main.key args = None) = false →
  (Main.read_topics args stdin).1 = Some ts →
  __init__ environ (Main.key args) ts = Ok self0 →
  run_task service boot
    (Running (create_assistant self0 Main.name Main.description Main.model)) w
    = (Returned (self1, a), w1, tr1) →
  Main.run service environ args stdin current_dir cwd disk boot schedule shutdown w
  = let out := ((Main.read_topics args stdin).2 ++ ["Starting ChatGPT Assistant..."])
               ++ ["Generating text..."] in
    let g := gathering service self1 Main.first_prompt Main.second_prompt schedule w1 in
    let l := {| tasks := tasks g; remote := remote g;
                history := (pair (length ts) <$> tr1) ++ history g |} in
    match write_fairy_tales service self1 Main.first_prompt Main.second_prompt
            schedule w1 with
    | (Awaiting, _) =>
        {| Main.exit := Main.Blocked; Main.stdout := out; Main.loop := l;
           Main.files := disk |}
    | (Raises e, fairy_tale) =>
        let '(pending, out) := Main.handler e out in
        Main.finally service fairy_tale pending shutdown out l disk
    | (Returns _, fairy_tale) =>
        let out := out ++ ["Saving PDF..."] in
        let pdf := PDF.__init__ current_dir
                     (os_path_join cwd Main.output_file_name) disk in
        match Main.responses_value fairy_tale with
        | Err e =>
            let '(pending, out) := Main.handler e out in
            Main.finally service fairy_tale pending shutdown out l disk
        | Ok values =>
            match PDF.save_fairy_tales pdf values with
            | (Ok _, pdf) =>
                Main.finally service fairy_tale Main.Finished shutdown out l (PDF.files pdf)
            | (Err e, pdf) =>
                let '(pending, out) := Main.handler e out in
                Main.finally service fairy_tale pending shutdown out l (PDF.files pdf)
            end
        end
    end.
Proof.
  intros Hkey Hts Hinit Hcreate. unfold Main.run. rewrite Hkey.
  destruct (Main.read_topics args stdin) as [o out]. simpl in Hts. subst o.
  rewrite Hinit. apply init_ok in Hinit as (<- & _ & _).
  rewrite Hcreate. done.
Qed.

(** The [finally] clause entered after the pipelines were gathered. *)
Lemma finally_after_gathering fairy_tale self a ts tr pending shutdown out schedule w disk :
  assistant fairy_tale = Some a →
  topics fairy_tale = ts →
  topics self = ts →
  let g := gathering service self Main.first_prompt Main.second_prompt schedule w in
  let ending := Main.finally service fairy_tale pending shutdown out
                  {| tasks := tasks g; remote := remote g;
                     history := (pair (length ts) <$> tr) ++ history g |} disk in
  Main.files ending = disk
  ∧ (∃ more, Main.stdout ending = out ++ more)
  ∧ (Main.exit ending ≠ Main.Blocked →
     ∃ reply,
       events_of (length ts) (history (Main.loop ending))
       = tr ++ [Ev (assistants_delete (assistant_id a)) reply]
       ∧ match reply with
         | Ok _ => Main.exit ending = pending ∧ Main.stdout ending
                                               = out ++ ["Stopping ChatGPT Assistant..."]
         | Err (OpenAIError message) =>
             Main.exit ending = Main.Finished
             ∧ Main.stdout ending = out ++ ["Stopping ChatGPT Assistant..."; message]
         | Err e => Main.exit ending = Main.Uncaught e
         end).
Proof.
  intros Ha Hts Hself g ending. subst ending.
  split; [apply finally_files|]. split; [apply finally_stdout|].
  unfold Main.finally. rewrite Ha, Hts.
  destruct (await_with _ _ _ _ _) as [t l'] eqn:Hawait.
  apply await_with_reaches in Hawait as (_ & tr' & Hev & Hreach);
    [|simpl; subst g; rewrite gathering_length, Hself; lia].
  apply (delete_assistant_reaches _ _ a) in Hreach; [|done].
  simpl in Hev. rewrite events_of_app, events_of_same in Hev.
  rewrite (events_of_out (history g) (length ts)), app_nil_r in Hev;
    [|subst g; rewrite <- Hself; apply gathering_tags | done].
  destruct t as [c|self'|e]; simpl.
  - done.
  - destruct Hreach as (-> & _). intros _. by exists (Ok ()).
  - subst tr'. intros _. exists (Err e). destruct e; simpl; rewrite <- ?app_assoc; done.
Qed.

Ltac enter_finally Ha Htopics Hself :=
  match goal with
  | |- context [Main.finally _ ?fairy_tale ?pending ?shutdown ?out
                  {| tasks := tasks (gathering _ ?self _ _ ?schedule ?w);
                     remote := _; history := (pair _ <$> ?tr) ++ _ |} ?disk] =>
      destruct (finally_after_gathering fairy_tale self _ _ tr pending shutdown out
                  schedule w disk Ha Htopics Hself) as (Hfiles & Hout & Hend)
  end.

(** The client and the loop once the assistant is created. *)
Lemma run_setup environ key ts self0 self1 a boot w w1 tr1 schedule :
  __init__ environ key ts = Ok self0 →
  run_task service boot
    (Running (create_assistant self0 Main.name Main.description Main.model)) w
    = (Returned (self1, a), w1, tr1) →
  let generated := write_fairy_tales service self1 Main.first_prompt Main.second_prompt
                     schedule w1 in
  tr1 = [Ev (assistants_create Main.name Main.description Main.model) (Ok a)]
  ∧ topics self1 = ts
  ∧ assistant generated.2 = Some a
  ∧ topics generated.2 = ts
  ∧ ∀ rs, generated.1 = Returns rs → responses generated.2 = tuples rs.
Proof.
  intros (Hts & _ & _)%init_ok Hcreate%run_task_reaches.
  apply create_assistant_returned in Hcreate as (-> & Ha & Htopics).
  intros generated. subst generated.
  destruct (write_fairy_tales_frame service self1 Main.first_prompt Main.second_prompt
              schedule w1) as (Ha' & Hts' & Hrs).
  split; [done|]. split; [congruence|]. split; [congruence|]. split; [congruence | done].
Qed.

(** X6. Without a key, or without a topic that is a non-empty string
    (none typed because the input is at its end, or only empty ones given),
    [run] contacts the service not at all and writes no file. When the key
    is missing it ends with the exit of the argument parser, nothing being
    printed on the standard output. When the input is at its end it
    prints, after the prompt, "Exiting..." on a new line, and returns.
    Otherwise the [ValueError] of the topics leaves it uncaught, after the
    prompt if the topics were typed and after nothing if they were given:
    a line typed empty, or [-topics] with no value, ends the program with a
    traceback. *)
Theorem run_needs_key_and_topics
    environ args stdin current_dir cwd disk boot schedule shutdown w :
  let ending := Main.run service environ args stdin current_dir cwd disk boot schedule
                  shutdown w in
  (Main.key_required environ && bool_decide (Main.key args = None) = true
   ∨ ∀ ts, (Main.read_topics args stdin).1 = Some ts → any ts = false) →
  history (Main.loop ending) = []
  ∧ tasks (Main.loop ending) = []
  ∧ remote (Main.loop ending) = w
  ∧ Main.files ending = disk
  ∧ Main.exit ending
    = (if Main.key_required environ && bool_decide (Main.key args = None)
       then Main.SystemExit 2
       else match (Main.read_topics args stdin).1 with
            | None => Main.Finished
            | Some _ => Main.Uncaught (ValueError "At least one topic is required.")
            end)
  ∧ Main.stdout ending
    = (if Main.key_required environ && bool_decide (Main.key args = None)
       then []
       else match (Main.read_topics args stdin).1, Main.topics args with
            | None, _ => ["Enter topics separated by commas: "; "
Exiting..."]
            | Some _, None => ["Enter topics separated by commas: "]
            | Some _, Some _ => []
            end).
Proof.
  intros ending H. subst ending. unfold Main.run.
  destruct (Main.key_required environ && bool_decide (Main.key args = None)) eqn:Hkey;
    [done|].
  destruct H as [?|H]; [done|].
  unfold Main.read_topics in *.
  destruct (Main.topics args) as [given|]; [|destruct stdin as [line|]]; simpl in *;
    [| |done].
  - assert (__init__ environ (Main.key args) given
            = Err (ValueError "At least one topic is required.")) as ->; [|done].
    unfold __init__, AsyncOpenAI_init, topics_setter. rewrite (H given eq_refl).
    destruct (Main.key args) as [k|]; [done|].
    destruct environ as [v|]; [done|]. done.
  - assert (__init__ environ (Main.key args) (Main.split line)
            = Err (ValueError "At least one topic is required.")) as ->; [|done].
    unfold __init__, AsyncOpenAI_init, topics_setter. rewrite (H _ eq_refl).
    destruct (Main.key args) as [k|]; [done|].
    destruct environ as [v|]; [done|]. done.
Qed.

(** X7. Once [run] has created the assistant, then, whatever happens
    next (the pipelines return, one of them raises, the document is
    refused) and in every interleaving, when [run] is over it has itself
    made two requests: the creation, and one request to delete the
    assistant that the creation returned. The deletion is asked for on
    every path out of [run], once, and is not tried again: when it is
    answered by an [OpenAIError], [run] prints the message last and returns
    normally, the assistant being left on the service; any other exception
    of the deletion leaves [run]. *)
Theorem run_deletes_its_assistant
    environ args stdin current_dir cwd disk boot schedule shutdown w
    ts self0 self1 a w1 tr1 :
  Main.key_required environ && bool_decide (Main.key args = None) = false →
  (Main.read_topics args stdin).1 = Some ts →
  __init__ environ (Main.key args) ts = Ok self0 →
  run_task service boot
    (Running (create_assistant self0 Main.name Main.description Main.model)) w
    = (Returned (self1, a), w1, tr1) →
  let ending := Main.run service environ args stdin current_dir cwd disk boot schedule
                  shutdown w in
  Main.exit ending ≠ Main.Blocked →
  ∃ reply,
    events_of (length ts) (history (Main.loop ending))
    = [Ev (assistants_create Main.name Main.description Main.model) (Ok a);
       Ev (assistants_delete (assistant_id a)) reply]
    ∧ ∀ e, reply = Err e →
        match e with
        | OpenAIError message =>
            Main.exit ending = Main.Finished ∧ last (Main.stdout ending) = Some message
        | _ => Main.exit ending = Main.Uncaught e
        end.
Proof.
  intros Hkey Hts Hinit Hcreate ending. subst ending.
  rewrite (run_started _ _ _ _ _ _ _ _ _ _ _ _ _ _ _ _ Hkey Hts Hinit Hcreate).
  destruct (run_setup _ _ _ _ _ _ _ _ _ _ schedule Hinit Hcreate)
    as (-> & Hself & Ha & Htopics & _).
  cbv zeta.
  destruct (write_fairy_tales _ _ _ _ _ _) as [[rs|e|] self2]; simpl in Ha, Htopics;
    [destruct (Main.responses_value self2) as [values|e];
       [destruct (PDF.save_fairy_tales _ _) as [[[]|e] pdf]|]| |done];
    try destruct (Main.handler e _) as [pending out];
    enter_finally Ha Htopics Hself;
    intros Hexit; destruct (Hend Hexit) as (reply & Hev & Hreply);
    exists reply; (split; [done|]); intros e' ->;
    destruct e' as [message| | | |]; try done;
    destruct Hreply as [-> ->]; (split; [done|]);
    change ["Stopping ChatGPT Assistant..."; message]
      with (["Stopping ChatGPT Assistant..."] ++ [message]);
    by rewrite !app_assoc, last_snoc.
Qed.

(** X8. When a request of a pipeline raises [OpenAIError], so that
    [write_fairy_tales] raises it, [run] prints the message, skips the
    document (no "Saving PDF...", no file) and goes on to delete the
    assistant. It then returns normally; only an exception of the deletion
    that is not an [OpenAIError] leaves [run]. *)
Theorem run_prints_the_error_of_a_pipeline
    environ args stdin current_dir cwd disk boot schedule shutdown w
    ts self0 self1 a w1 tr1 message :
  Main.key_required environ && bool_decide (Main.key args = None) = false →
  (Main.read_topics args stdin).1 = Some ts →
  __init__ environ (Main.key args) ts = Ok self0 →
  run_task service boot
    (Running (create_assistant self0 Main.name Main.description Main.model)) w
    = (Returned (self1, a), w1, tr1) →
  (write_fairy_tales service self1 Main.first_prompt Main.second_prompt schedule w1).1
    = Raises (OpenAIError message) →
  let ending := Main.run service environ args stdin current_dir cwd disk boot schedule
                  shutdown w in
  Main.exit ending ≠ Main.Blocked →
  Main.files ending = disk
  ∧ ∃ reply,
      last (events_of (length ts) (history (Main.loop ending)))
      = Some (Ev (assistants_delete (assistant_id a)) reply)
      ∧ match reply with
        | Ok _ =>
            Main.exit ending = Main.Finished
            ∧ Main.stdout ending
              = (Main.read_topics args stdin).2
                ++ ["Starting ChatGPT Assistant..."; "Generating text..."; message;
                    "Stopping ChatGPT Assistant..."]
        | Err (OpenAIError message') =>
            Main.exit ending = Main.Finished
            ∧ Main.stdout ending
              = (Main.read_topics args stdin).2
                ++ ["Starting ChatGPT Assistant..."; "Generating text..."; message;
                    "Stopping ChatGPT Assistant..."; message']
        | Err e => Main.exit ending = Main.Uncaught e
        end.
Proof.
  intros Hkey Hts Hinit Hcreate Hraises ending. subst ending.
  rewrite (run_started _ _ _ _ _ _ _ _ _ _ _ _ _ _ _ _ Hkey Hts Hinit Hcreate).
  destruct (run_setup _ _ _ _ _ _ _ _ _ _ schedule Hinit Hcreate)
    as (-> & Hself & Ha & Htopics & _).
  cbv zeta.
  destruct (write_fairy_tales _ _ _ _ _ _) as [generated self2].
  simpl in Ha, Htopics, Hraises. subst generated. cbv beta iota delta [Main.handler].
  enter_finally Ha Htopics Hself.
  intros Hexit. destruct (Hend Hexit) as (reply & Hev & Hreply).
  split; [done|]. exists reply. rewrite Hev. split; [by rewrite last_snoc|].
  destruct reply as [[]|[]]; [| |done..].
  - destruct Hreply as [-> ->]. by rewrite <- !app_assoc.
  - destruct Hreply as [-> ->]. by rewrite <- !app_assoc.
Qed.

Lemma titles_of_pairs (tales : list (string * string)) :
  omap (λ r : list string, r !! 1) ((λ tale, [tale.1; tale.2]) <$> tales) = tales.*2
  ∧ omap (λ r : list string, r !! 0) ((λ tale, [tale.1; tale.2]) <$> tales) = tales.*1.
Proof. induction tales as [|[c t] tales [IH1 IH2]]; [done|]. csimpl. by rewrite IH1, IH2. Qed.

(** X9. When [write_fairy_tales] returns tuples of two elements, [run]
    prints "Saving PDF..." and outputs one document, to "Fairy tales.pdf"
    in the working directory: it takes the place of the file of that name,
    if there is one, and the other files stay. The document has one
    section per tuple returned, in their order, titled by the second
    element and filled with the first; its calls open one page more than
    there are tuples (two when there is none, the last one then empty), not
    counting the pages a long text opens by itself. It is written before
    the assistant is deleted, and stays whatever the deletion does. When
    [write_fairy_tales] does not return such tuples, the files are left as
    they were. *)
Theorem run_saves_the_tales
    environ args stdin current_dir cwd disk boot schedule shutdown w
    ts self0 self1 a w1 tr1 :
  Main.key_required environ && bool_decide (Main.key args = None) = false →
  (Main.read_topics args stdin).1 = Some ts →
  __init__ environ (Main.key args) ts = Ok self0 →
  run_task service boot
    (Running (create_assistant self0 Main.name Main.description Main.model)) w
    = (Returned (self1, a), w1, tr1) →
  let generated := (write_fairy_tales service self1 Main.first_prompt Main.second_prompt
                      schedule w1).1 in
  let ending := Main.run service environ args stdin current_dir cwd disk boot schedule
                  shutdown w in
  let output_path := os_path_join cwd Main.output_file_name in
  (∀ rs, generated = Returns rs → Forall (λ r, length r = 2) rs →
     "Saving PDF..." ∈ Main.stdout ending
     ∧ ∃ doc,
         Main.files ending
         = (output_path, doc) :: filter (λ file, file.1 ≠ output_path) disk
         ∧ section_titles doc = omap (λ r, r !! 1) rs
         ∧ body_texts doc = omap (λ r, r !! 0) rs
         ∧ pages_added doc = S (max 1 (length rs))
         ∧ (ends_with_empty_page doc = true ↔ rs = []))
  ∧ ((∀ rs, generated = Returns rs → ¬ Forall (λ r, length r = 2) rs) →
     Main.files ending = disk).
Proof.
  intros Hkey Hts Hinit Hcreate generated ending output_path.
  subst generated ending output_path.
  rewrite (run_started _ _ _ _ _ _ _ _ _ _ _ _ _ _ _ _ Hkey Hts Hinit Hcreate).
  destruct (run_setup _ _ _ _ _ _ _ _ _ _ schedule Hinit Hcreate)
    as (-> & Hself & Ha & Htopics & Hrs).
  cbv zeta.
  destruct (write_fairy_tales _ _ _ _ _ _) as [generated self2].
  simpl in Ha, Htopics, Hrs. cbv beta iota delta [fst]. split.
  - intros rs -> Hpairs. unfold Main.responses_value. rewrite (Hrs rs eq_refl).
    destruct (pairs_of_tuples rs Hpairs) as (tales & -> & ->).
    unfold PDF.save_fairy_tales.
    destruct (save_entries_text_pairs (length tales) 0
                (PDF.title_page (PDF.__init__ current_dir
                   (os_path_join cwd Main.output_file_name) disk)) tales eq_refl)
      as (new & Hsave & Htitles & Htexts & Hpages & Hlast).
    rewrite length_fmap, Hsave.
    enter_finally Ha Htopics Hself. split.
    + destruct Hout as [more ->]. apply elem_of_app. left. apply elem_of_app. right.
      constructor.
    + rewrite Hfiles. eexists. split; [reflexivity|].
      destruct (titles_of_pairs tales) as [-> ->]. rewrite length_fmap.
      unfold section_titles in *. simpl.
      split; [exact Htitles|]. split; [exact Htexts|].
      rewrite Hpages. split; [destruct tales; simpl; lia|].
      unfold ends_with_empty_page. simpl.
      destruct new as [|op new].
      * destruct tales; [done | discriminate Hlast].
      * destruct tales as [|tale tales]; [by apply last_None in Hlast|].
        by rewrite !last_cons_cons, Hlast.
  - intros Hnot. destruct generated as [rs|e|]; [| |done].
    + unfold Main.responses_value. rewrite (Hrs rs eq_refl).
      pose proof (save_fairy_tales_ok (PDF.__init__ current_dir
                    (os_path_join cwd Main.output_file_name) disk)
                    (PDF.of_responses rs)) as Hok.
      pose proof (save_entries_files (length (PDF.of_responses rs)) 0
                    (PDF.title_page (PDF.__init__ current_dir
                       (os_path_join cwd Main.output_file_name) disk))
                    (PDF.of_responses rs)) as Hf.
      unfold PDF.save_fairy_tales in *.
      destruct (PDF.save_entries _ _ _ _) as [[[]|e] pdf]; simpl in Hok, Hf;
        cbv beta iota.
      * destruct (Hnot rs eq_refl). unfold PDF.of_responses in Hok.
        rewrite Forall_fmap in Hok. apply proj1 in Hok. specialize (Hok eq_refl).
        eapply Forall_impl; [exact Hok|]. intros r. apply text_pair_of_strings.
      * destruct (Main.handler e _) as [pending out].
        enter_finally Ha Htopics Hself. by rewrite Hfiles.
    + destruct (Main.handler e _) as [pending out].
      by enter_finally Ha Htopics Hself.
Qed.

(** X10. When [write_fairy_tales] returns a tuple that has not two
    elements, the unpacking in [save_fairy_tales] raises [ValueError]: no
    file is written, the assistant is still deleted, and the [ValueError]
    leaves [run] when the deletion succeeds. But when the deletion raises
    [OpenAIError], the [return] in the [finally] clause discards the
    [ValueError]: [run] prints the message of the deletion and returns
    normally. *)
Theorem run_loses_the_error_of_the_document
    environ args stdin current_dir cwd disk boot schedule shutdown w
    ts self0 self1 a w1 tr1 rs :
  Main.key_required environ && bool_decide (Main.key args = None) = false →
  (Main.read_topics args stdin).1 = Some ts →
  __init__ environ (Main.key args) ts = Ok self0 →
  run_task service boot
    (Running (create_assistant self0 Main.name Main.description Main.model)) w
    = (Returned (self1, a), w1, tr1) →
  (write_fairy_tales service self1 Main.first_prompt Main.second_prompt schedule w1).1
    = Returns rs →
  ¬ Forall (λ r, length r = 2) rs →
  let ending := Main.run service environ args stdin current_dir cwd disk boot schedule
                  shutdown w in
  Main.exit ending ≠ Main.Blocked →
  Main.files ending = disk
  ∧ ∃ reply,
      last (events_of (length ts) (history (Main.loop ending)))
      = Some (Ev (assistants_delete (assistant_id a)) reply)
      ∧ match reply with
        | Ok _ =>
            Main.exit ending = Main.Uncaught (ValueError "not enough values to unpack")
            ∨ Main.exit ending = Main.Uncaught (ValueError "too many values to unpack")
        | Err (OpenAIError message) =>
            Main.exit ending = Main.Finished
            ∧ Main.stdout ending
              = (Main.read_topics args stdin).2
                ++ ["Starting ChatGPT Assistant..."; "Generating text..."; "Saving PDF...";
                    "Stopping ChatGPT Assistant..."; message]
        | Err e => Main.exit ending = Main.Uncaught e
        end.
Proof.
  intros Hkey Hts Hinit Hcreate Hreturns Hnot ending. subst ending.
  rewrite (run_started _ _ _ _ _ _ _ _ _ _ _ _ _ _ _ _ Hkey Hts Hinit Hcreate).
  destruct (run_setup _ _ _ _ _ _ _ _ _ _ schedule Hinit Hcreate)
    as (-> & Hself & Ha & Htopics & Hrs).
  cbv zeta.
  destruct (write_fairy_tales _ _ _ _ _ _) as [generated self2].
  simpl in Ha, Htopics, Hrs, Hreturns. subst generated. cbv beta iota.
  unfold Main.responses_value. rewrite (Hrs rs eq_refl).
  pose proof (save_fairy_tales_ok (PDF.__init__ current_dir
                (os_path_join cwd Main.output_file_name) disk)
                (PDF.of_responses rs)) as Hok.
  pose proof (save_entries_files (length (PDF.of_responses rs)) 0
                (PDF.title_page (PDF.__init__ current_dir
                   (os_path_join cwd Main.output_file_name) disk))
                (PDF.of_responses rs)) as Hf.
  pose proof (save_entries_of_strings (length (PDF.of_responses rs)) 0
                (PDF.title_page (PDF.__init__ current_dir
                   (os_path_join cwd Main.output_file_name) disk)) rs) as He.
  unfold PDF.save_fairy_tales in *.
  destruct (PDF.save_entries _ _ _ _) as [[[]|e] pdf]; simpl in Hok, Hf, He;
    cbv beta iota.
  { destruct Hnot. unfold PDF.of_responses in Hok.
    rewrite Forall_fmap in Hok. apply proj1 in Hok. specialize (Hok eq_refl).
    eapply Forall_impl; [exact Hok|]. intros r. apply text_pair_of_strings. }
  assert (Main.handler e
            ((((Main.read_topics args stdin).2 ++ ["Starting ChatGPT Assistant..."])
              ++ ["Generating text..."]) ++ ["Saving PDF..."])
          = (Main.Uncaught e,
             (((Main.read_topics args stdin).2 ++ ["Starting ChatGPT Assistant..."])
              ++ ["Generating text..."]) ++ ["Saving PDF..."])) as ->
    by (by destruct (He e eq_refl) as [-> | ->]).
  enter_finally Ha Htopics Hself.
  intros Hexit. destruct (Hend Hexit) as (reply & Hev & Hreply).
  split; [by rewrite Hfiles|]. exists reply. rewrite Hev. split; [by rewrite last_snoc|].
  destruct reply as [[]|[]]; [| |done..].
  - destruct Hreply as [-> _]. by destruct (He e eq_refl) as [-> | ->]; [left | right].
  - destruct Hreply as [-> ->]. by rewrite <- !app_assoc.
Qed.

End Run.

(** ** The topics typed *)

#[local] Arguments String.append !_ _ / : simpl nomatch.

Lemma string_app_assoc (s1 s2 s3 : string) : (s1 +:+ s2) +:+ s3 = s1 +:+ s2 +:+ s3.
Proof. induction s1 as [|c s1 IH]; simpl; [done|]. by rewrite IH. Qed.

Lemma string_app_nil_r (s : string) : s +:+ "" = s.
Proof. induction s as [|c s IH]; simpl; [done|]. by rewrite IH. Qed.

Lemma split_from_step c c' s'' word :
  Main.split_from (String c (String c' s'')) word
  = if bool_decide (String c (String c' "") = ", ")
    then word :: Main.split_from s'' ""
    else Main.split_from (String c' s'') (word +:+ String c "").
Proof. done. Qed.

Lemma has_separator_step c c' s'' :
  has_separator (String c (String c' s''))
  = bool_decide (String c (String c' "") = ", ") || has_separator (String c' s'').
Proof. done. Qed.

Lemma split_from_cons s word :
  ∃ t ts, Main.split_from s word = t :: ts.
Proof.
  remember (String.length s) as n eqn:Hn. revert s word Hn.
  induction (lt_wf n) as [n _ IH]. intros s word ->.
  destruct s as [|c [|c' s'']]; [by eexists _, _..|].
  rewrite split_from_step. case_bool_decide; [by eexists _, _|].
  apply (IH (String.length (String c' s''))); [simpl; lia | done].
Qed.

Lemma join_cons word words :
  words ≠ [] → join (word :: words) = word +:+ ", " +:+ join words.
Proof. by destruct words. Qed.

Lemma join_split_from s word : join (Main.split_from s word) = word +:+ s.
Proof.
  remember (String.length s) as n eqn:Hn. revert s word Hn.
  induction (lt_wf n) as [n _ IH]. intros s word ->.
  destruct s as [|c [|c' s'']].
  - simpl. by rewrite string_app_nil_r.
  - done.
  - rewrite split_from_step. case_bool_decide as Hsep.
    + destruct (split_from_cons s'' "") as (t & ts' & Heq).
      rewrite join_cons by (by rewrite Heq).
      rewrite (IH (String.length s'') ltac:(simpl; lia) s'' "" eq_refl).
      by injection Hsep as -> ->.
    + rewrite (IH (String.length (String c' s'')) ltac:(simpl; lia) _ _ eq_refl).
      by rewrite string_app_assoc.
Qed.

(** A word before the next character of the line. *)
Lemma has_separator_snoc word c c' :
  has_separator ((word +:+ String c "") +:+ String c' "")
  = has_separator (word +:+ String c "")
    || bool_decide (String c (String c' "") = ", ").
Proof.
  induction word as [|d word IH].
  - simpl. by rewrite orb_false_r.
  - destruct word as [|d' word].
    + simpl. by rewrite !orb_false_r.
    + change (has_separator (String d (String d' ((word +:+ String c "") +:+ String c' "")))
              = has_separator (String d (String d' (word +:+ String c "")))
                || bool_decide (String c (String c' "") = ", ")).
      rewrite !has_separator_step.
      change (String d' ((word +:+ String c "") +:+ String c' ""))
        with ((String d' word +:+ String c "") +:+ String c' "").
      rewrite IH. by rewrite orb_assoc.
Qed.

Lemma has_separator_prefix word c :
  has_separator (word +:+ String c "") = false → has_separator word = false.
Proof.
  induction word as [|d word IH]; [done|].
  destruct word as [|d' word]; [done|].
  change (has_separator (String d (String d' (word +:+ String c ""))) = false
          → has_separator (String d (String d' word)) = false).
  rewrite !has_separator_step. intros [-> ?]%orb_false_elim. by apply IH.
Qed.

Lemma split_from_separated s word :
  match s with
  | String c _ => has_separator (word +:+ String c "") = false
  | EmptyString => has_separator word = false
  end →
  Forall (λ t, has_separator t = false) (Main.split_from s word).
Proof.
  remember (String.length s) as n eqn:Hn. revert s word Hn.
  induction (lt_wf n) as [n _ IH]. intros s word ->.
  destruct s as [|c [|c' s'']]; intros Hword.
  - by repeat constructor.
  - by repeat constructor.
  - rewrite split_from_step. case_bool_decide as Hsep.
    + constructor; [by eapply has_separator_prefix|].
      apply (IH (String.length s'')); [simpl; lia | done |]. by destruct s''.
    + apply (IH (String.length (String c' s''))); [simpl; lia | done |].
      rewrite has_separator_snoc, Hword. by rewrite bool_decide_eq_false_2.
Qed.

Lemma split_from_one s word :
  has_separator s = false → Main.split_from s word = [word +:+ s].
Proof.
  remember (String.length s) as n eqn:Hn. revert s word Hn.
  induction (lt_wf n) as [n _ IH]. intros s word ->.
  destruct s as [|c [|c' s'']].
  - intros _. simpl. by rewrite string_app_nil_r.
  - done.
  - rewrite split_from_step, has_separator_step.
    intros [-> Hrest]%orb_false_elim.
    rewrite (IH (String.length (String c' s'')) ltac:(simpl; lia) _ _ eq_refl Hrest).
    by rewrite string_app_assoc.
Qed.

(** X11. When no [-topics] is given, the topics are read from the
    line typed: there is at least one, none of them holds a comma followed
    by a space, and put together again with a comma and a space between
    them they are the line, character for character: nothing is trimmed
    and nothing dropped. So a line that has no comma followed by a space
    is one topic, be there commas in it. *)
Theorem topics_are_the_parts_of_the_line (args : Main.Namespace) (line : string) :
  Main.topics args = None →
  ∃ ts, (Main.read_topics args (Some line)).1 = Some ts
    ∧ ts ≠ []
    ∧ join ts = line
    ∧ Forall (λ t, has_separator t = false) ts
    ∧ (has_separator line = false → ts = [line]).
Proof.
  intros Hargs. unfold Main.read_topics. rewrite Hargs. simpl.
  exists (Main.split line). split; [done|]. unfold Main.split. split.
  { by destruct (split_from_cons line "") as (t & ts' & ->). }
  split; [apply join_split_from|]. split.
  - apply split_from_separated. by destruct line.
  - apply split_from_one.
Qed.


(** * More concrete runs *)

Lemma save_fairy_tales_of_responses_witness :
  let pdf := PDF.__init__ "fonts" "Fairy tales.pdf" [] in
  let saved := PDF.save_fairy_tales pdf
                 (PDF.of_responses [["Once upon a time."; "A title"]; ["Sure!"]]) in
  saved.1 = Err (ValueError "not enough values to unpack")
  ∧ (ValueError "not enough values to unpack" = ValueError "not enough values to unpack"
     ∨ ValueError "not enough values to unpack" = ValueError "too many values to unpack")
  ∧ PDF.files saved.2 = PDF.files pdf.
Proof.
  intros pdf saved.
  assert (saved.1 = Err (ValueError "not enough values to unpack")) as H by reflexivity.
  split; [exact H|].
  exact (proj2 (save_fairy_tales_of_responses pdf
                  [["Once upon a time."; "A title"]; ["Sure!"]]) _ H).
Defined.

Lemma assistant_created_then_deleted_witness :
  run_task Demo.fine 2
    (Running (create_assistant (Demo.unready ["cat"]) Main.name Main.description Main.model))
    Mock.empty
  = (Returned (Demo.ready ["cat"], Demo.asst), Demo.created,
     [Ev (assistants_create Main.name Main.description Main.model) (Ok Demo.asst)])
  ∧ run_task Demo.fine 3 (Running (delete_assistant (Demo.ready ["cat"]))) Demo.created
    = (Returned (Demo.unready ["cat"]), Demo.created,
       [Ev (assistants_delete "asst_0") (Ok ())])
  ∧ assistant (Demo.ready ["cat"]) = Some Demo.asst
  ∧ topics (Demo.ready ["cat"]) = topics (Demo.unready ["cat"])
  ∧ assistant (Demo.unready ["cat"]) = None.
Proof.
  assert (run_task Demo.fine 2
            (Running (create_assistant (Demo.unready ["cat"]) Main.name Main.description
                        Main.model)) Mock.empty
          = (Returned (Demo.ready ["cat"], Demo.asst), Demo.created,
             [Ev (assistants_create Main.name Main.description Main.model) (Ok Demo.asst)]))
    as Hcreate by (vm_compute; reflexivity).
  assert (run_task Demo.fine 3 (Running (delete_assistant (Demo.ready ["cat"]))) Demo.created
          = (Returned (Demo.unready ["cat"]), Demo.created,
             [Ev (assistants_delete "asst_0") (Ok ())]))
    as Hdelete by (vm_compute; reflexivity).
  destruct (assistant_created_then_deleted Demo.fine _ _ _ _ _ _ _ _ _ _ Hcreate)
    as (_ & Ha & Hts & Hthen).
  destruct (Hthen _ _ _ _ _ Hdelete) as (_ & Hnone & _).
  split; [exact Hcreate|]. split; [exact Hdelete|]. split; [exact Ha|].
  split; [exact Hts | exact Hnone].
Defined.

Lemma without_assistant_nothing_is_generated_witness :
  let g := gathering Demo.fine (Demo.unready ["cat"]) Main.first_prompt Main.second_prompt
             (Mock.round_robin 1 30) Mock.empty in
  Forall (λ e, ¬ about_run e.2) (history g)
  ∧ (∀ i r, tasks g !! i ≠ Some (Returned r))
  ∧ ∀ rs, (write_fairy_tales Demo.fine (Demo.unready ["cat"]) Main.first_prompt
             Main.second_prompt (Mock.round_robin 1 30) Mock.empty).1 ≠ Returns rs.
Proof.
  intros g.
  destruct (without_assistant_nothing_is_generated Demo.fine (Demo.unready ["cat"])
              Main.first_prompt Main.second_prompt (Mock.round_robin 1 30) Mock.empty
              eq_refl) as (Hruns & Htasks & Hnone).
  split; [exact Hruns|]. split; [exact Htasks|]. apply Hnone. discriminate.
Defined.

Lemma pipeline_keeps_to_its_thread_witness :
  let evs := events_of 1 (history (gathering Mock.calm Mock.three "Tell: " "Title?"
                                     Mock.owl_first Mock.empty)) in
  ∃ reply, default (Ev threads_create (Err TypeError)) (head evs) = Ev threads_create reply
    ∧ match reply with
      | Err _ => drop 1 evs = []
      | Ok th =>
          Forall (on_thread (thread_id th)) (drop 1 evs)
          ∧ ∀ ev' rest', drop 1 evs = ev' :: rest' →
              ∃ reply', ev' = Ev (messages_create (thread_id th) "user"
                                    ("Tell: " +:+ "dragon" +:+ ".")) reply'
      end.
Proof.
  intros evs.
  apply (pipeline_keeps_to_its_thread Mock.calm Mock.three "Tell: " "Title?"
           Mock.owl_first Mock.empty 1 "dragon").
  - reflexivity.
  - vm_compute. reflexivity.
Defined.

Lemma run_needs_key_and_topics_witness :
  let args := {| Main.topics := None; Main.key := Some "sk-test" |} in
  let ended stdin := Main.run Demo.fine None args stdin "/app" "/home/u" Demo.shelf 2
                       (Mock.round_robin 1 30) Demo.shutdown Mock.empty in
  (history (Main.loop (ended None)) = []
   ∧ Main.files (ended None) = Demo.shelf
   ∧ Main.exit (ended None) = Main.Finished
   ∧ Main.stdout (ended None) = ["Enter topics separated by commas: "; "
Exiting..."])
  ∧ (history (Main.loop (ended (Some ""))) = []
     ∧ Main.files (ended (Some "")) = Demo.shelf
     ∧ Main.exit (ended (Some ""))
       = Main.Uncaught (ValueError "At least one topic is required.")
     ∧ Main.stdout (ended (Some "")) = ["Enter topics separated by commas: "]).
Proof.
  intros args ended.
  destruct (run_needs_key_and_topics Demo.fine None args None "/app" "/home/u" Demo.shelf
              2 (Mock.round_robin 1 30) Demo.shutdown Mock.empty)
    as (Hhistory & _ & _ & Hfiles & Hexit & Hout).
  { right. intros ts Hts. discriminate Hts. }
  destruct (run_needs_key_and_topics Demo.fine None args (Some "") "/app" "/home/u"
              Demo.shelf 2 (Mock.round_robin 1 30) Demo.shutdown Mock.empty)
    as (Hhistory' & _ & _ & Hfiles' & Hexit' & Hout').
  { right. intros ts Hts. vm_compute in Hts. injection Hts as <-. reflexivity. }
  split.
  - split; [exact Hhistory|]. split; [exact Hfiles|]. split; [exact Hexit | exact Hout].
  - split; [exact Hhistory'|]. split; [exact Hfiles'|]. split; [exact Hexit' | exact Hout'].
Defined.

Lemma run_deletes_its_assistant_witness :
  let ending := Main.run Demo.stuck None (Demo.argv ["cat"]) None "/app" "/home/u" []
                  2 (Mock.round_robin 1 30) Demo.shutdown Mock.empty in
  ∃ reply,
    events_of 1 (history (Main.loop ending))
    = [Ev (assistants_create Main.name Main.description Main.model) (Ok Demo.asst);
       Ev (assistants_delete (assistant_id Demo.asst)) reply]
    ∧ ∀ e, reply = Err e →
        match e with
        | OpenAIError message =>
            Main.exit ending = Main.Finished ∧ last (Main.stdout ending) = Some message
        | _ => Main.exit ending = Main.Uncaught e
        end.
Proof.
  apply (run_deletes_its_assistant Demo.stuck None (Demo.argv ["cat"]) None
           "/app" "/home/u" [] 2 (Mock.round_robin 1 30) Demo.shutdown Mock.empty
           ["cat"] (Demo.unready ["cat"]) (Demo.ready ["cat"]) Demo.asst Demo.created
           [Ev (assistants_create Main.name Main.description Main.model) (Ok Demo.asst)]).
  - reflexivity.
  - reflexivity.
  - reflexivity.
  - vm_compute. reflexivity.
  - vm_compute. discriminate.
Defined.

Lemma run_prints_the_error_of_a_pipeline_witness :
  let ending := Main.run Demo.owl_fails None (Demo.argv ["cat"; "owl"]) None "/app"
                  "/home/u" [] 2 (Mock.round_robin 2 30) Demo.shutdown Mock.empty in
  Main.files ending = []
  ∧ ∃ reply,
      last (events_of 2 (history (Main.loop ending)))
      = Some (Ev (assistants_delete (assistant_id Demo.asst)) reply)
      ∧ match reply with
        | Ok _ =>
            Main.exit ending = Main.Finished
            ∧ Main.stdout ending
              = [] ++ ["Starting ChatGPT Assistant..."; "Generating text...";
                       "Connection error."; "Stopping ChatGPT Assistant..."]
        | Err (OpenAIError message') =>
            Main.exit ending = Main.Finished
            ∧ Main.stdout ending
              = [] ++ ["Starting ChatGPT Assistant..."; "Generating text...";
                       "Connection error."; "Stopping ChatGPT Assistant..."; message']
        | Err e => Main.exit ending = Main.Uncaught e
        end.
Proof.
  apply (run_prints_the_error_of_a_pipeline Demo.owl_fails None (Demo.argv ["cat"; "owl"])
           None "/app" "/home/u" [] 2 (Mock.round_robin 2 30) Demo.shutdown Mock.empty
           ["cat"; "owl"] (Demo.unready ["cat"; "owl"]) (Demo.ready ["cat"; "owl"])
           Demo.asst Demo.created
           [Ev (assistants_create Main.name Main.description Main.model) (Ok Demo.asst)]
           "Connection error.").
  - reflexivity.
  - reflexivity.
  - reflexivity.
  - vm_compute. reflexivity.
  - vm_compute. reflexivity.
  - vm_compute. discriminate.
Defined.

Lemma run_saves_the_tales_witness :
  let ending := Main.run Demo.fine None (Demo.argv ["cat"; "owl"]) None "/app" "/home/u"
                  Demo.shelf 2 (Mock.round_robin 2 30) Demo.shutdown Mock.empty in
  let rs := [["Once upon a time."; "A title"]; ["Once upon a time."; "A title"]] in
  "Saving PDF..." ∈ Main.stdout ending
  ∧ ∃ doc,
      Main.files ending = [("/home/u/Fairy tales.pdf", doc); ("/home/u/notes.txt", [])]
      ∧ section_titles doc = ["A title"; "A title"]
      ∧ body_texts doc = ["Once upon a time."; "Once upon a time."]
      ∧ pages_added doc = 3
      ∧ (ends_with_empty_page doc = true ↔ rs = []).
Proof.
  intros ending rs.
  destruct (proj1 (run_saves_the_tales Demo.fine None (Demo.argv ["cat"; "owl"]) None
                     "/app" "/home/u" Demo.shelf 2 (Mock.round_robin 2 30) Demo.shutdown
                     Mock.empty
                     ["cat"; "owl"] (Demo.unready ["cat"; "owl"])
                     (Demo.ready ["cat"; "owl"]) Demo.asst Demo.created
                     [Ev (assistants_create Main.name Main.description Main.model)
                        (Ok Demo.asst)]
                     eq_refl eq_refl eq_refl ltac:(vm_compute; reflexivity)) rs)
    as (Hout & doc & Hfiles & Htitles & Htexts & Hpages & Hempty).
  - vm_compute. reflexivity.
  - repeat constructor.
  - split; [exact Hout|]. exists doc.
    split; [exact Hfiles|]. split; [exact Htitles|]. split; [exact Htexts|].
    split; [exact Hpages | exact Hempty].
Defined.

Lemma run_loses_the_error_of_the_document_witness :
  let ending := Main.run Demo.stuck None (Demo.argv ["cat"]) None "/app" "/home/u" []
                  2 (Mock.round_robin 1 30) Demo.shutdown Mock.empty in
  Main.files ending = []
  ∧ ∃ reply,
      last (events_of 1 (history (Main.loop ending)))
      = Some (Ev (assistants_delete (assistant_id Demo.asst)) reply)
      ∧ match reply with
        | Ok _ =>
            Main.exit ending = Main.Uncaught (ValueError "not enough values to unpack")
            ∨ Main.exit ending = Main.Uncaught (ValueError "too many values to unpack")
        | Err (OpenAIError message) =>
            Main.exit ending = Main.Finished
            ∧ Main.stdout ending
              = [] ++ ["Starting ChatGPT Assistant..."; "Generating text...";
                       "Saving PDF..."; "Stopping ChatGPT Assistant..."; message]
        | Err e => Main.exit ending = Main.Uncaught e
        end.
Proof.
  apply (run_loses_the_error_of_the_document Demo.stuck None (Demo.argv ["cat"]) None
           "/app" "/home/u" [] 2 (Mock.round_robin 1 30) Demo.shutdown Mock.empty
           ["cat"] (Demo.unready ["cat"]) (Demo.ready ["cat"]) Demo.asst Demo.created
           [Ev (assistants_create Main.name Main.description Main.model) (Ok Demo.asst)]
           [["Sure!"; "Once upon a time."; "Sure!"; "Once upon a time."]]).
  - reflexivity.
  - reflexivity.
  - reflexivity.
  - vm_compute. reflexivity.
  - vm_compute. reflexivity.
  - intros H. inversion H as [|? ? Hlen _]. discriminate Hlen.
  - vm_compute. discriminate.
Defined.

Lemma topics_are_the_parts_of_the_line_witness :
  ∃ ts,
    (Main.read_topics {| Main.topics := None; Main.key := Some "sk-test" |}
       (Some "cat, dragon,owl,  fox, ")).1 = Some ts
    ∧ ts ≠ []
    ∧ join ts = "cat, dragon,owl,  fox, "
    ∧ Forall (λ t, has_separator t = false) ts
    ∧ (has_separator "cat, dragon,owl,  fox, " = false → ts = ["cat, dragon,owl,  fox, "]).
Proof.
  apply (topics_are_the_parts_of_the_line
           {| Main.topics := None; Main.key := Some "sk-test" |} "cat, dragon,owl,  fox, ").
  reflexivity.
Defined.
